(** * LLM Based Tutor: the streaming wrappers of [llm_based_tutor.ipynb]

    A shallow embedding of the notebook's code cells: the prompt builder
    ([system_prompt], [user_prompt], [the_prompts]) and the two streaming
    wrappers ([gpt_answer], [llama_answer]) with the text clean-up they apply
    to the growing response, [response.replace("```","").replace("markdown","")].

    Python strings are modelled as [string]; the code only compares
    characters for equality, so nothing depends on the alphabet.  The
    effects of the wrappers (creating and updating a display, printing,
    asking the stream for its next chunk, raising) are modelled by a small
    state-and-exception monad over a log of events.  What IPython's
    [Markdown] and [display] take from their surroundings (the paths that
    exist, the content of files and URLs, the identifier of a new
    display) is a parameter, the [environment]. *)

From Stdlib Require Import String Ascii List Bool Arith Lia.
Import ListNotations.
Open Scope list_scope.
Open Scope string_scope.

(** ** Python string operations used by the notebook *)

Module PyStr.

(** [s.startswith(p)] *)
Fixpoint startswith (s p : string) {struct p} : bool :=
  match p with
  | EmptyString => true
  | String a p' =>
      match s with
      | EmptyString => false
      | String c s' => Ascii.eqb a c && startswith s' p'
      end
  end.

(** [s[n:]] *)
Fixpoint drop (n : nat) (s : string) : string :=
  match n with
  | O => s
  | S n' =>
      match s with
      | EmptyString => EmptyString
      | String _ s' => drop n' s'
      end
  end.

(** [p in s] *)
Fixpoint contains (s p : string) : bool :=
  startswith s p ||
  match s with
  | EmptyString => false
  | String _ s' => contains s' p
  end.


(** [s.replace(old, new)] for a non-empty [old]: one scan from the left;
    at a position where [old] starts, [new] is emitted and the scan resumes
    after that occurrence, otherwise the character is copied.  [skip]
    counts the characters of a matched occurrence still to be passed
    over. *)
Fixpoint replace_scan (old new : string) (skip : nat) (s : string) : string :=
  match s with
  | EmptyString => EmptyString
  | String c s' =>
      match skip with
      | S k => replace_scan old new k s'
      | O =>
          if startswith s old
          then new ++ replace_scan old new (String.length old - 1) s'
          else String c (replace_scan old new 0 s')
      end
  end.

(** [s.replace("", new)]: [new] before every character and at the end. *)
Fixpoint replace_empty (new s : string) : string :=
  match s with
  | EmptyString => new
  | String c s' => new ++ String c (replace_empty new s')
  end.

(** [s.replace(old, new)] *)
Definition replace (s old new : string) : string :=
  match old with
  | EmptyString => replace_empty new s
  | String _ _ => replace_scan old new 0 s
  end.

(** ["".join(parts)] *)
Definition join (parts : list string) : string :=
  fold_right append EmptyString parts.

(** [x or ""] for an optional string [x] *)
Definition or_empty (x : option string) : string :=
  match x with
  | Some s => s
  | None => EmptyString
  end.

End PyStr.
Import PyStr.

(** The clean-up applied to the response after every chunk (the right-hand
    side of line 124 of the notebook, and of its copy in [llama_answer]). *)
Definition sanitize (response : string) : string :=
  replace (replace response "```" "") "markdown" "".


(** ** Prompt builder (notebook cell 4) *)

(** A chat message, the dict [{"role": ..., "content": ...}]. *)
Record message : Type := { role : string; content : string }.

Definition system_prompt : string := "
You are a knowledgeable technical tutor who provides detailed explanations and guidance on topics such as Python programming, 
software engineering, data science, and large language models (LLMs). 
Your responses should be clear, concise, and tailored to the user's level of understanding.
".

(** The line feed written [\n] in the Python literal. *)
Definition LF : string := String (ascii_of_nat 10) EmptyString.

Definition user_prompt_prefix : string :=
  "Could you provide a detailed explanation for the following question: " ++ LF.

Definition user_prompt (question : string) : string :=
  let user_prompt := user_prompt_prefix in
  let user_prompt := user_prompt ++ question in
  user_prompt.

(** The notebook binds [the_prompts] at module level from the global
    [question]; here the question is the argument. *)
Definition the_prompts (question : string) : list message :=
  [ {| role := "system"; content := system_prompt |};
    {| role := "user"; content := user_prompt question |} ].

Definition MODEL_GPT : string := "gpt-4o-mini".
Definition MODEL_LLAMA : string := "llama3.2".

(** ** Exceptions *)

(** The exception classes that matter to the wrappers.  The first three
    derive from [BaseException] only; every other class derives from
    [Exception]. *)
Inductive exc_class : Type :=
  | KeyboardInterrupt
  | SystemExit
  | GeneratorExit
  | IndexError
  | AuthenticationError
  | OtherException (name : string).

(** [isinstance(e, Exception)], what the clause [except Exception as e]
    tests. *)
Definition isinstance_Exception (c : exc_class) : bool :=
  match c with
  | KeyboardInterrupt | SystemExit | GeneratorExit => false
  | IndexError | AuthenticationError | OtherException _ => true
  end.

(** A raised exception: its class and [str(e)]. *)
Record exn : Type := { exn_class : exc_class; exn_str : string }.

Inductive result (A : Type) : Type :=
  | Returned (a : A)
  | Raised (e : exn).
Arguments Returned {A} a.
Arguments Raised {A} e.

(** ** Effects of a notebook cell *)

Inductive event : Type :=
  | EvNext                                          (* the [for] asks the stream for a chunk *)
  | EvDisplay (display_id : nat) (markdown : string)       (* [display(Markdown(..), display_id=True)] *)
  | EvUpdateDisplay (display_id : nat) (markdown : string) (* [update_display(Markdown(..), display_id=..)] *)
  | EvPrint (line : string).                          (* [print(..)] *)

(** A computation reads the log of the events so far, extends it, and
    returns or raises.  Events logged before a raise stay logged. *)
Definition M (A : Type) : Type := list event -> result A * list event.

Definition ret {A} (a : A) : M A := fun log => (Returned a, log).

Definition bind {A B} (m : M A) (f : A -> M B) : M B :=
  fun log =>
    match m log with
    | (Returned a, log') => f a log'
    | (Raised e, log') => (Raised e, log')
    end.

Notation "x <- m ;; k" := (bind m (fun x => k))
  (at level 61, m at next level, right associativity).
Notation "m ;; k" := (bind m (fun _ => k))
  (at level 61, right associativity).

Definition raise {A} (e : exn) : M A := fun log => (Raised e, log).

Definition emit (ev : event) : M unit := fun log => (Returned tt, (log ++ [ev])%list).

(** The outcome of a call into a library, made into a computation. *)
Definition call {A} (r : result A) : M A := fun log => (r, log).

(** [try: body  except Exception as e: handler(e)] *)
Definition try_except_Exception {A} (body : M A) (handler : exn -> M A) : M A :=
  fun log =>
    match body log with
    | (Returned a, log') => (Returned a, log')
    | (Raised e, log') =>
        if isinstance_Exception (exn_class e) then handler e log'
        else (Raised e, log')
    end.

(** The surroundings of the notebook, as the [IPython] package (not part
    of the repository) consults them.  Each answer may depend on the
    moment of the call, given by the log so far.
    - [new_id]: the identifier [display(.., display_id=True)] draws at
      random for a new display region;
    - [path_exists]: [os.path.exists];
    - [read_file]: the text of a file, or the exception of opening or
      reading it;
    - [urlopen]: the text behind a URL, or the exception of fetching or
      decoding it. *)
Record environment : Type := {
  new_id : list event -> nat;
  path_exists : list event -> string -> bool;
  read_file : list event -> string -> result string;
  urlopen : list event -> string -> result string
}.

(** [_safe_exists(path)] of [IPython]: the empty path never exists. *)
Definition safe_exists (env : environment) (log : list event) (path : string) : bool :=
  match path with
  | EmptyString => false
  | String _ _ => path_exists env log path
  end.

(** [Markdown(data)] of [IPython], as the object's text: a [data] that
    starts with [http] is taken as a URL and fetched, a [data] that names
    an existing path is read as a file, any other [data] is the text
    itself. *)
Definition Markdown (env : environment) (data : string) : M string :=
  fun log =>
    if startswith data "http" then (urlopen env log data, log)
    else if safe_exists env log data then (read_file env log data, log)
    else (Returned data, log).

(** The handle [display] returns, read as [display_handle.display_id]. *)
Record DisplayHandle : Type := { display_id : nat }.

(** [display(markdown, display_id=True)] for a [Markdown] object: a new
    display region under the identifier drawn; returns its handle. *)
Definition display (env : environment) (markdown : string) : M DisplayHandle :=
  fun log =>
    let id := new_id env log in
    (Returned {| display_id := id |}, (log ++ [EvDisplay id markdown])%list).

(** [update_display(markdown, display_id=..)] for a [Markdown] object. *)
Definition update_display (markdown : string) (display_id : nat) : M unit :=
  emit (EvUpdateDisplay display_id markdown).

Definition print (line : string) : M unit := emit (EvPrint line).

(** [xs[0]] *)
Definition getitem0 {A} (xs : list A) : M A :=
  match xs with
  | x :: _ => ret x
  | [] => raise {| exn_class := IndexError; exn_str := "list index out of range" |}
  end.

(** ** Backends *)

(** A streaming response: the chunks it delivers in order, then either
    the end of the stream ([failure = None]) or an exception raised by the
    request for the next chunk. *)
Record stream (C : Type) : Type := { chunks : list C; failure : option exn }.
Arguments chunks {C} s.
Arguments failure {C} s.

(** A backend maps the model name and the messages of a streaming request
    to its outcome: an exception, or an open stream. *)
Definition backend (C : Type) : Type := string -> list message -> result (stream C).

(** The chunk objects of the [openai] client: [chunk.choices[0].delta.content]. *)
Module openai_types.
Record ChoiceDelta : Type := { content : option string }.
Record Choice : Type := { delta : ChoiceDelta }.
Record ChatCompletionChunk : Type := { choices : list Choice }.
End openai_types.

(** The chunk objects of the [ollama] client: [chunk["message"]["content"]]. *)
Module ollama_types.
Record Message : Type := { content : option string }.
Record ChatResponse : Type := { message : Message }.
End ollama_types.

(** Modelled from the spec: the cloud client built by [OpenAI()] and
    [openai.api_key = os.getenv('OPENAI_API_KEY')] (the [openai] package is
    not part of the repository).  Opening a request fails with
    [AuthenticationError] when the credential is absent; with a credential
    the remote service decides the outcome. *)
Definition OpenAI (getenv : string -> option string)
    (service : string -> backend openai_types.ChatCompletionChunk)
    : backend openai_types.ChatCompletionChunk :=
  fun model messages =>
    match getenv "OPENAI_API_KEY" with
    | None =>
        Raised {| exn_class := AuthenticationError;
                  exn_str := "No API key provided" |}
    | Some api_key => service api_key model messages
    end.

(** ** The streaming wrappers (notebook cells 5 and 6) *)

Definition diagnostic (e : exn) : string :=
  "An error occurred while streaming the answer for your question: " ++ exn_str e.

(** The loop [for chunk in stream: ...] of [gpt_answer], from the current
    value of [response]; returns the final value of [response]. *)
Fixpoint gpt_loop (env : environment) (display_id : nat)
    (chunks : list openai_types.ChatCompletionChunk) (failure : option exn)
    (response : string) : M string :=
  match chunks with
  | [] =>
      emit EvNext ;;
      match failure with
      | None => ret response
      | Some e => raise e
      end
  | chunk :: rest =>
      emit EvNext ;;
      choice <- getitem0 (openai_types.choices chunk) ;;
      let response :=
        response ++ or_empty (openai_types.content (openai_types.delta choice)) in
      let response := replace (replace response "```" "") "markdown" "" in
      markdown <- Markdown env response ;;
      update_display markdown display_id ;;
      gpt_loop env display_id rest failure response
  end.

(** The [try] block of [gpt_answer]; returns the final [response]. *)
Definition gpt_try (env : environment)
    (openai : backend openai_types.ChatCompletionChunk)
    (the_prompts : list message) : M string :=
  stream <- call (openai MODEL_GPT the_prompts) ;;
  let response := "" in
  markdown <- Markdown env "" ;;
  display_handle <- display env markdown ;;
  gpt_loop env (display_id display_handle) (chunks stream) (failure stream) response.

Definition gpt_answer (env : environment)
    (openai : backend openai_types.ChatCompletionChunk)
    (the_prompts : list message) : M unit :=
  try_except_Exception
    (gpt_try env openai the_prompts ;; ret tt)
    (fun e => print (diagnostic e)).

(** The loop of [llama_answer]. *)
Fixpoint llama_loop (env : environment) (display_id : nat)
    (chunks : list ollama_types.ChatResponse) (failure : option exn)
    (response : string) : M string :=
  match chunks with
  | [] =>
      emit EvNext ;;
      match failure with
      | None => ret response
      | Some e => raise e
      end
  | chunk :: rest =>
      emit EvNext ;;
      let response :=
        response ++ or_empty (ollama_types.content (ollama_types.message chunk)) in
      let response := replace (replace response "```" "") "markdown" "" in
      markdown <- Markdown env response ;;
      update_display markdown display_id ;;
      llama_loop env display_id rest failure response
  end.

Definition llama_try (env : environment)
    (ollama_chat : backend ollama_types.ChatResponse)
    (the_prompts : list message) : M string :=
  stream <- call (ollama_chat MODEL_LLAMA the_prompts) ;;
  let response := "" in
  markdown <- Markdown env "" ;;
  display_handle <- display env markdown ;;
  llama_loop env (display_id display_handle) (chunks stream) (failure stream) response.

Definition llama_answer (env : environment)
    (ollama_chat : backend ollama_types.ChatResponse)
    (the_prompts : list message) : M unit :=
  try_except_Exception
    (llama_try env ollama_chat the_prompts ;; ret tt)
    (fun e => print (diagnostic e)).

(** ** Observations on a log *)

(** The text a display region shows after the events of [log]: the
    markdown of the last [EvDisplay] or [EvUpdateDisplay] for it. *)
Fixpoint shown (display_id : nat) (log : list event) : option string :=
  match log with
  | [] => None
  | ev :: log' =>
      match shown display_id log' with
      | Some md => Some md
      | None =>
          match ev with
          | EvDisplay i md | EvUpdateDisplay i md =>
              if Nat.eqb i display_id then Some md else None
          | _ => None
          end
      end
  end.

Definition updates (log : list event) : list string :=
  flat_map (fun ev => match ev with EvUpdateDisplay _ md => [md] | _ => [] end) log.

Definition displays (log : list event) : list string :=
  flat_map (fun ev => match ev with EvDisplay _ md => [md] | _ => [] end) log.

Definition printed (log : list event) : list string :=
  flat_map (fun ev => match ev with EvPrint line => [line] | _ => [] end) log.

Definition requests (log : list event) : nat :=
  List.length (filter (fun ev => match ev with EvNext => true | _ => false end) log).

(** A chunk of the [openai] client that carries the given text. *)
Definition gpt_chunk (text : option string) : openai_types.ChatCompletionChunk :=
  {| openai_types.choices :=
       [ {| openai_types.delta := {| openai_types.content := text |} |} ] |}.

(** A chunk of the [ollama] client that carries the given text. *)
Definition llama_chunk (text : option string) : ollama_types.ChatResponse :=
  {| ollama_types.message := {| ollama_types.content := text |} |}.

(** The buffer after the loop body has run on each text in turn. *)
Definition aggregate (response : string) (texts : list (option string)) : string :=
  fold_left (fun response text => sanitize (response ++ or_empty text)) texts response.

(** The events of a loop over the given texts when [Markdown] takes each
    buffer as the text itself: a request and an update per text, and the
    request that meets the end of the stream. *)
Fixpoint loop_events (display_id : nat) (response : string)
    (texts : list (option string)) : list event :=
  match texts with
  | [] => [EvNext]
  | text :: rest =>
      let response := sanitize (response ++ or_empty text) in
      EvNext :: EvUpdateDisplay display_id response :: loop_events display_id response rest
  end.

(** What the loop returns or raises at the end of the stream. *)
Definition loop_result (failure : option exn) (response : string) : result string :=
  match failure with
  | None => Returned response
  | Some e => Raised e
  end.

(** The text of the first [i] fragments. *)
Definition delivered (i : nat) (texts : list (option string)) : string :=
  join (map or_empty (firstn i texts)).

(** A character that is neither a backtick nor one of the letters
    [m a r k d o w]: removing a [markdown] that follows it joins nothing
    into a new fence or a new [markdown]. *)
Definition neutral (c : ascii) : bool :=
  negb (existsb (Ascii.eqb c) (list_ascii_of_string "`markdow")).

(** Every occurrence of [markdown] in the text stands detached: directly
    after the start of the text, after another occurrence, or after a
    neutral character. *)
Inductive markdown_detached : string -> Prop :=
  | detached_free (s : string) :
      contains s "markdown" = false -> markdown_detached s
  | detached_first (s : string) :
      markdown_detached s -> markdown_detached ("markdown" ++ s)
  | detached_after (p : string) (c : ascii) (s : string) :
      contains (p ++ String c "") "markdown" = false ->
      neutral c = true ->
      markdown_detached s ->
      markdown_detached (p ++ String c ("markdown" ++ s)).

(** In the text delivered before each fragment, once its fences are
    removed, every [markdown] is detached. *)
Definition detached_prefixes (texts : list (option string)) : Prop :=
  forall i, i < List.length texts ->
    markdown_detached (replace (delivered i texts) "```" "").

(** A text with nothing left for [sanitize] to remove. *)
Definition clean (s : string) : Prop :=
  contains s "```" = false /\ contains s "markdown" = false.

(** ** Streams as the loops read them *)

(** The text the loop of [gpt_answer] reads from a chunk,
    [chunk.choices[0].delta.content], when the chunk has a choice. *)
Definition gpt_text (chunk : openai_types.ChatCompletionChunk) : option (option string) :=
  match openai_types.choices chunk with
  | choice :: _ => Some (openai_types.content (openai_types.delta choice))
  | [] => None
  end.

(** The texts of the chunks that come before the first chunk without
    choices. *)
Fixpoint gpt_texts (chunks : list openai_types.ChatCompletionChunk)
    : list (option string) :=
  match chunks with
  | [] => []
  | chunk :: rest =>
      match gpt_text chunk with
      | Some text => text :: gpt_texts rest
      | None => []
      end
  end.

(** Every chunk has at least one choice. *)
Definition gpt_well_formed (chunks : list openai_types.ChatCompletionChunk) : bool :=
  forallb (fun chunk => match gpt_text chunk with Some _ => true | None => false end)
          chunks.

(** The texts [chunk["message"]["content"]] of the chunks. *)
Definition llama_texts (chunks : list ollama_types.ChatResponse) : list (option string) :=
  map (fun chunk => ollama_types.content (ollama_types.message chunk)) chunks.

(** The events of a wrapper whose stream was opened: the placeholder
    display, then the events of the loop. *)
Definition session_events (id : nat) (texts : list (option string)) : list event :=
  EvDisplay id "" :: loop_events id "" texts.

(** The successive buffers of a loop over the texts, one per text: the
    values of [response] handed to [Markdown]. *)
Fixpoint loop_buffers (response : string) (texts : list (option string)) : list string :=
  match texts with
  | [] => []
  | text :: rest =>
      let response := sanitize (response ++ or_empty text) in
      response :: loop_buffers response rest
  end.

(** [Markdown] takes the text as it is, at any moment: the text does not
    start with [http] and names no existing path. *)
Definition plain (env : environment) (data : string) : Prop :=
  startswith data "http" = false /\
  forall log, safe_exists env log data = false.

Definition is_Display (ev : event) : bool :=
  match ev with
  | EvDisplay _ _ => true
  | _ => false
  end.

(** An environment for the examples: no path exists, [urlopen] refuses
    every text as it refuses one that is no URL, and the displays happen
    to be numbered in order. *)
Definition quiet : environment :=
  {| new_id := fun log => List.length (filter is_Display log);
     path_exists := fun _ _ => false;
     read_file := fun _ path =>
       Raised {| exn_class := OtherException "FileNotFoundError"; exn_str := path |};
     urlopen := fun _ url =>
       Raised {| exn_class := OtherException "ValueError";
                 exn_str := "unknown url type: '" ++ url ++ "'" |} |}.

(** An environment in which the path [Hel] is a directory. *)
Definition with_directory_Hel : environment :=
  {| new_id := fun log => List.length (filter is_Display log);
     path_exists := fun _ path => String.eqb path "Hel";
     read_file := fun _ path =>
       Raised {| exn_class := OtherException "IsADirectoryError";
                 exn_str := "[Errno 21] Is a directory: 'Hel'" |};
     urlopen := fun _ url =>
       Raised {| exn_class := OtherException "ValueError";
                 exn_str := "unknown url type: '" ++ url ++ "'" |} |}.

(** The two test cells at the end of the notebook, run one after the
    other: [gpt_answer(the_prompts)], then [llama_answer(the_prompts)]. *)
Definition test_cells (env : environment)
    (openai : backend openai_types.ChatCompletionChunk)
    (ollama_chat : backend ollama_types.ChatResponse)
    (the_prompts : list message) : M unit :=
  gpt_answer env openai the_prompts ;;
  llama_answer env ollama_chat the_prompts.

(** [t] is [s] with some characters deleted. *)
Inductive subsequence : string -> string -> Prop :=
  | subsequence_nil : subsequence "" ""
  | subsequence_keep (c : ascii) (t s : string) :
      subsequence t s -> subsequence (String c t) (String c s)
  | subsequence_drop (c : ascii) (t s : string) :
      subsequence t s -> subsequence t (String c s).

(** ** Checks of the embedding on concrete inputs *)

Example replace_py1 : replace "aaaa" "aa" "b" = "bb".
Proof. reflexivity. Qed.
Example replace_py2 : replace "abc" "" "-" = "-a-b-c-".
Proof. reflexivity. Qed.
Example replace_py3 : replace "x```python```y" "```" "" = "xpythony".
Proof. reflexivity. Qed.
Example sanitize_ex1 : sanitize "``markdown`" = "```".
Proof. reflexivity. Qed.
Example sanitize_ex2 : sanitize "markmarkdowndown" = "markdown".
Proof. reflexivity. Qed.
Example gpt_answer_ex1 :
  gpt_answer quiet (fun _ _ => Returned {| chunks := map gpt_chunk [Some "Hel"; None; Some "lo"];
                                     failure := None |})
             (the_prompts "q") [] =
  (Returned tt,
   [EvDisplay 0 ""; EvNext; EvUpdateDisplay 0 "Hel"; EvNext; EvUpdateDisplay 0 "Hel";
    EvNext; EvUpdateDisplay 0 "Hello"; EvNext]).
Proof. reflexivity. Qed.
Example gpt_answer_ex2 :
  gpt_answer quiet (fun _ _ => Returned {| chunks := map gpt_chunk [Some "http"; Some "x"];
                                     failure := None |})
             (the_prompts "q") [] =
  (Returned tt,
   [EvDisplay 0 ""; EvNext;
    EvPrint "An error occurred while streaming the answer for your question: unknown url type: 'http'"]).
Proof. reflexivity. Qed.
Example gpt_answer_ex3 :
  gpt_answer with_directory_Hel
             (fun _ _ => Returned {| chunks := map gpt_chunk
                                        [Some "Hel"; Some "lo ``"; Some "`wor"; Some "ld"];
                                     failure := None |})
             (the_prompts "q") [] =
  (Returned tt,
   [EvDisplay 0 ""; EvNext;
    EvPrint "An error occurred while streaming the answer for your question: [Errno 21] Is a directory: 'Hel'"]).
Proof. reflexivity. Qed.

(** ** Strings: concatenation, prefixes, occurrences *)

Lemma append_nil_r (s : string) : s ++ "" = s.
Proof. induction s as [|c s IH]; simpl; [reflexivity | now rewrite IH]. Qed.

Lemma append_assoc (s t u : string) : (s ++ t) ++ u = s ++ (t ++ u).
Proof. induction s as [|c s IH]; simpl; [reflexivity | now rewrite IH]. Qed.

Lemma length_append (s t : string) :
  String.length (s ++ t) = String.length s + String.length t.
Proof. induction s as [|c s IH]; simpl; [reflexivity | now rewrite IH]. Qed.

Lemma join_app (xs ys : list string) : join (xs ++ ys)%list = join xs ++ join ys.
Proof.
  induction xs as [|x xs IH]; simpl; [reflexivity|].
  now rewrite IH, append_assoc.
Qed.

Lemma startswith_app (p t : string) : startswith (p ++ t) p = true.
Proof.
  induction p as [|a p IH]; simpl; [reflexivity|].
  now rewrite Ascii.eqb_refl, IH.
Qed.

Lemma startswith_split (s p : string) :
  startswith s p = true -> s = p ++ drop (String.length p) s.
Proof.
  revert s; induction p as [|a p IH]; intros s H; simpl in *; [reflexivity|].
  destruct s as [|c s]; [discriminate|].
  apply andb_true_iff in H as [Hc Hs].
  apply Ascii.eqb_eq in Hc; subst c.
  now rewrite <- (IH s Hs).
Qed.

Lemma drop_app (p t : string) : drop (String.length p) (p ++ t) = t.
Proof. induction p as [|a p IH]; simpl; [reflexivity | exact IH]. Qed.

Lemma length_drop (n : nat) (s : string) :
  String.length (drop n s) = String.length s - n.
Proof.
  revert s; induction n as [|n IH]; intros s; simpl; [lia|].
  destruct s as [|c s]; simpl; [reflexivity | apply IH].
Qed.

Lemma contains_nil (p : string) : contains "" p = startswith "" p.
Proof. simpl; now rewrite orb_false_r. Qed.

Lemma contains_cons (c : ascii) (s p : string) :
  contains (String c s) p = startswith (String c s) p || contains s p.
Proof. reflexivity. Qed.

(** ** [str.replace] with a non-empty pattern *)

Arguments replace : simpl never.
#[local] Arguments Ascii.eqb : simpl never.

Section Replace.

Variables (a : ascii) (o new : string).
Local Abbreviation old := (String a o).

Lemma replace_scan_drop (k : nat) (s : string) :
  replace_scan old new k s = replace_scan old new 0 (drop k s).
Proof.
  revert k; induction s as [|c s IH]; intros [|k]; try reflexivity.
  simpl drop; rewrite <- IH; reflexivity.
Qed.

Lemma replace_nomatch (c : ascii) (s : string) :
  startswith (String c s) old = false ->
  replace (String c s) old new = String c (replace s old new).
Proof.
  intros H; unfold replace; simpl replace_scan.
  simpl in H; rewrite H; reflexivity.
Qed.

Lemma replace_match (s : string) :
  startswith s old = true ->
  replace s old new = new ++ replace (drop (String.length old) s) old new.
Proof.
  intros H; destruct s as [|c s]; [discriminate|].
  unfold replace; simpl replace_scan.
  simpl in H; rewrite H.
  rewrite replace_scan_drop; simpl.
  now rewrite Nat.sub_0_r.
Qed.

Lemma replace_app_old (t : string) :
  replace (old ++ t) old new = new ++ replace t old new.
Proof.
  rewrite replace_match by apply startswith_app.
  now rewrite drop_app.
Qed.

(** Induction along the scan of [replace]. *)
Lemma replace_ind (P : string -> Prop) :
  P "" ->
  (forall t, P t -> P (old ++ t)) ->
  (forall c s, startswith (String c s) old = false -> P s -> P (String c s)) ->
  forall s, P s.
Proof.
  intros Hnil Hmatch Hcopy s.
  remember (String.length s) as n eqn:Hn.
  revert s Hn; induction n as [n IH] using lt_wf_ind; intros s Hn.
  destruct s as [|c s]; [exact Hnil|].
  destruct (startswith (String c s) old) eqn:E.
  - rewrite (startswith_split _ _ E).
    apply Hmatch.
    apply (IH (String.length (drop (String.length old) (String c s)))); [|reflexivity].
    rewrite length_drop; subst n; simpl; lia.
  - apply Hcopy; [exact E|].
    apply (IH (String.length s)); [subst n; simpl; lia | reflexivity].
Qed.

(** Without an occurrence there is nothing to replace. *)
Lemma replace_absent (s : string) :
  contains s old = false -> replace s old new = s.
Proof.
  induction s as [|c s IH]; intros H; [reflexivity|].
  rewrite contains_cons in H; apply orb_false_iff in H as [H1 H2].
  rewrite replace_nomatch by exact H1.
  now rewrite IH.
Qed.

End Replace.

Section Remove.

Variables (a : ascii) (o : string).
Local Abbreviation old := (String a o).

Lemma remove_length_le (s : string) :
  String.length (replace s old "") <= String.length s.
Proof.
  induction s as [|t IH|c s E IH] using (replace_ind a o).
  - simpl; lia.
  - rewrite (replace_app_old a o ""), !length_append; simpl in *; lia.
  - rewrite replace_nomatch by exact E; simpl; lia.
Qed.

(** Removing a pattern that occurs shortens the string. *)
Lemma remove_length_lt (s : string) :
  contains s old = true ->
  String.length (replace s old "") < String.length s.
Proof.
  induction s as [|c s IH]; intros H.
  - rewrite contains_nil in H; discriminate.
  - rewrite contains_cons in H.
    destruct (startswith (String c s) old) eqn:E.
    + rewrite (startswith_split _ _ E).
      rewrite (replace_app_old a o ""), !length_append.
      pose proof (remove_length_le (drop (String.length old) (String c s))).
      simpl in *; lia.
    + rewrite replace_nomatch by exact E.
      simpl in H; simpl; apply IH in H; lia.
Qed.

Lemma remove_fixed_iff (s : string) :
  replace s old "" = s <-> contains s old = false.
Proof.
  split; [|apply replace_absent].
  intros H; destruct (contains s old) eqn:E; [|reflexivity].
  apply remove_length_lt in E; rewrite H in E; lia.
Qed.

End Remove.

(** ** Removing the code fence *)

Lemma fence_nomatch_head (c : ascii) (s : string) :
  Ascii.eqb "`" c = false -> startswith (String c s) "```" = false.
Proof. intros H; simpl; now rewrite H. Qed.

Lemma fence_copy_head (c : ascii) (s : string) :
  Ascii.eqb "`" c = false ->
  replace (String c s) "```" "" = String c (replace s "```" "").
Proof. intros H; apply replace_nomatch, fence_nomatch_head, H. Qed.

(** A string that does not start with two backticks still does not after
    the fences are removed. *)
Lemma fence_two_kept (s : string) :
  startswith s "``" = false -> startswith (replace s "```" "") "``" = false.
Proof.
  intros H.
  destruct s as [|c s]; [reflexivity|].
  destruct (Ascii.eqb "`" c) eqn:Ec.
  - apply Ascii.eqb_eq in Ec; subst c.
    destruct s as [|d s]; [reflexivity|].
    destruct (Ascii.eqb "`" d) eqn:Ed.
    + simpl in H; rewrite Ed in H; discriminate.
    + rewrite replace_nomatch by (simpl; now rewrite Ed).
      rewrite fence_copy_head by exact Ed.
      simpl; now rewrite Ed.
  - rewrite fence_copy_head by exact Ec.
    simpl; now rewrite Ec.
Qed.

Lemma fence_removed_head (x : string) :
  startswith (replace x "```" "") "```" = false.
Proof.
  induction x as [|t IH|c s E IH] using (replace_ind "`" "``").
  - reflexivity.
  - rewrite replace_app_old; exact IH.
  - rewrite replace_nomatch by exact E.
    destruct (Ascii.eqb "`" c) eqn:Ec; [|now apply fence_nomatch_head].
    assert (H2 : startswith s "``" = false).
    { simpl in E; rewrite Ec in E; exact E. }
    apply fence_two_kept in H2.
    change (Ascii.eqb "`" c && startswith (replace s "```" "") "``" = false).
    now rewrite H2, andb_false_r.
Qed.

(** After [replace("```","")] no fence is left. *)
Lemma fence_removed (x : string) :
  contains (replace x "```" "") "```" = false.
Proof.
  induction x as [|t IH|c s E IH] using (replace_ind "`" "``").
  - reflexivity.
  - rewrite replace_app_old; exact IH.
  - pose proof (fence_removed_head (String c s)) as Hh.
    rewrite replace_nomatch in * by exact E.
    rewrite contains_cons, Hh, IH; reflexivity.
Qed.

(** Where the scan copies a character of [String c s], either nothing of
    [String c s] is removed at all, or the scan copies [c] whatever
    follows. *)
Lemma fence_boundary (c : ascii) (s : string) :
  startswith (String c s) "```" = false ->
  replace s "```" "" = s \/
  (forall b, startswith (String c (replace s "```" "" ++ b)) "```" = false /\
             startswith (String c (s ++ b)) "```" = false).
Proof.
  intros E.
  destruct (Ascii.eqb "`" c) eqn:Ec.
  2:{ right; intros b; simpl; rewrite Ec; split; reflexivity. }
  destruct s as [|d s]; [left; reflexivity|].
  destruct (Ascii.eqb "`" d) eqn:Ed.
  2:{ right; intros b. rewrite fence_copy_head by exact Ed.
      simpl; rewrite Ec, Ed; split; reflexivity. }
  destruct s as [|e s].
  { left. apply Ascii.eqb_eq in Ed; subst d; reflexivity. }
  assert (Ee : Ascii.eqb "`" e = false).
  { simpl in E; rewrite Ec, Ed in E; simpl in E.
    destruct (Ascii.eqb "`" e); [discriminate | reflexivity]. }
  right; intros b.
  rewrite replace_nomatch by (simpl; now rewrite Ed, Ee).
  rewrite fence_copy_head by exact Ee.
  simpl; rewrite Ec, Ed, Ee; split; reflexivity.
Qed.

(** Removing the fences of a prefix first does not change what removing
    the fences of the whole gives. *)
Lemma fence_absorb (x y : string) :
  replace (replace x "```" "" ++ y) "```" "" = replace (x ++ y) "```" "".
Proof.
  induction x as [|t IH|c s E IH] using (replace_ind "`" "``").
  - reflexivity.
  - rewrite replace_app_old, (append_assoc "```" t y), replace_app_old; exact IH.
  - rewrite replace_nomatch by exact E.
    destruct (fence_boundary c s E) as [Hid | Hcopy].
    + now rewrite Hid.
    + destruct (Hcopy y) as [H1 H2].
      simpl append.
      rewrite (replace_nomatch _ _ _ _ _ H1), (replace_nomatch _ _ _ _ _ H2).
      now rewrite IH.
Qed.

(** ** The clean-up [sanitize] *)

Lemma sanitize_clean_fixed (s : string) : clean s -> sanitize s = s.
Proof.
  intros [Hf Hm]; unfold sanitize.
  rewrite (replace_absent _ _ _ s Hf).
  apply replace_absent, Hm.
Qed.

Lemma sanitize_fixed_clean (s : string) : sanitize s = s -> clean s.
Proof.
  intros H.
  assert (Hf : contains s "```" = false).
  { destruct (contains s "```") eqn:E; [|reflexivity].
    apply remove_length_lt in E.
    pose proof (remove_length_le "m" "arkdown" (replace s "```" "")) as Hm.
    unfold sanitize in H; rewrite H in Hm; lia. }
  split; [exact Hf|].
  unfold sanitize in H; rewrite (replace_absent _ _ _ s Hf) in H.
  now apply remove_fixed_iff in H.
Qed.

(** ** Text around a removed occurrence *)

Lemma append_cons_assoc (p : string) (c : ascii) (z : string) :
  (p ++ String c "") ++ z = p ++ String c z.
Proof. now rewrite append_assoc. Qed.

Lemma startswith_app_mono (s t p : string) :
  startswith s p = true -> startswith (s ++ t) p = true.
Proof.
  revert s; induction p as [|a p IH]; intros s H; [reflexivity|].
  destruct s as [|c s]; [discriminate|].
  simpl in *; apply andb_true_iff in H as [Hc Hs].
  now rewrite Hc, (IH s Hs).
Qed.

Lemma contains_app_false (s t p : string) :
  contains (s ++ t) p = false -> contains s p = false /\ contains t p = false.
Proof.
  induction s as [|c s IH]; intros H.
  - split; [|exact H].
    destruct (contains "" p) eqn:E; [|reflexivity].
    rewrite contains_nil in E.
    destruct p; [|discriminate E].
    destruct t; discriminate H.
  - simpl append in H; rewrite contains_cons in H.
    apply orb_false_iff in H as [Hh Ht].
    destruct (IH Ht) as [Hs Hr]; split; [|exact Hr].
    rewrite contains_cons, Hs, orb_false_r.
    destruct (startswith (String c s) p) eqn:E; [|reflexivity].
    apply (startswith_app_mono _ t) in E; simpl append in E; congruence.
Qed.

Lemma neutral_inv (c : ascii) :
  neutral c = true ->
  Ascii.eqb "`" c = false /\ Ascii.eqb "m" c = false /\ Ascii.eqb "a" c = false /\
  Ascii.eqb "r" c = false /\ Ascii.eqb "k" c = false /\ Ascii.eqb "d" c = false /\
  Ascii.eqb "o" c = false /\ Ascii.eqb "w" c = false.
Proof.
  unfold neutral; simpl; intros H.
  apply negb_true_iff in H.
  repeat (apply orb_false_iff in H as [?H H]).
  rewrite !(Ascii.eqb_sym _ c); auto 10.
Qed.

(** A fence cannot start in a fence-free text and end in a text that
    starts with no backtick. *)
Lemma fence_no_straddle (c : ascii) (p z : string) :
  startswith (String c p) "```" = false ->
  startswith z "`" = false ->
  startswith (String c (p ++ z)) "```" = false.
Proof.
  intros Hp Hz; simpl in *.
  destruct (Ascii.eqb "`" c); [simpl in *|reflexivity].
  destruct p as [|d p]; simpl in *.
  { destruct z as [|e z]; [reflexivity|].
    simpl in *; destruct (Ascii.eqb "`" e); [discriminate Hz | reflexivity]. }
  destruct (Ascii.eqb "`" d); [simpl in *|reflexivity].
  destruct p as [|e p]; [exact Hz | exact Hp].
Qed.

Lemma fence_pass (p z : string) :
  contains p "```" = false ->
  startswith z "`" = false ->
  replace (p ++ z) "```" "" = p ++ replace z "```" "".
Proof.
  intros Hp Hz; induction p as [|c p IH]; [reflexivity|].
  rewrite contains_cons in Hp; apply orb_false_iff in Hp as [Hh Ht].
  simpl append.
  rewrite replace_nomatch by (apply fence_no_straddle; assumption).
  now rewrite (IH Ht).
Qed.

Lemma fence_free_app (p z : string) :
  contains p "```" = false ->
  startswith z "`" = false ->
  contains z "```" = false ->
  contains (p ++ z) "```" = false.
Proof.
  intros Hp Hz Hc; induction p as [|c p IH]; [exact Hc|].
  rewrite contains_cons in Hp; apply orb_false_iff in Hp as [Hh Ht].
  simpl append; rewrite contains_cons, (IH Ht), orb_false_r.
  apply fence_no_straddle; assumption.
Qed.

Lemma fence_pass_markdown (z : string) :
  replace ("markdown" ++ z) "```" "" = "markdown" ++ replace z "```" "".
Proof.
  simpl append.
  repeat (rewrite fence_copy_head by reflexivity).
  reflexivity.
Qed.

(** A [markdown] cannot start in a text that ends with a neutral
    character and end beyond it. *)
Lemma markdown_no_straddle (p : string) (c : ascii) (z : string) :
  startswith (p ++ String c "") "markdown" = false ->
  neutral c = true ->
  startswith ((p ++ String c "") ++ z) "markdown" = false.
Proof.
  intros H Hc.
  destruct (neutral_inv c Hc) as (_ & Hm & Ha & Hr & Hk & Hd & Ho & Hw).
  destruct p as [|c0 [|c1 [|c2 [|c3 [|c4 [|c5 [|c6 p]]]]]]]; simpl in *;
    rewrite ?Hm, ?Ha, ?Hr, ?Hk, ?Hd, ?Ho, ?Hw, ?andb_false_r; try reflexivity.
  destruct p; exact H.
Qed.

Lemma markdown_pass (p : string) (c : ascii) (z : string) :
  contains (p ++ String c "") "markdown" = false ->
  neutral c = true ->
  replace ((p ++ String c "") ++ z) "markdown" "" =
  (p ++ String c "") ++ replace z "markdown" "".
Proof.
  intros Hp Hc; induction p as [|c0 p IH].
  - simpl append.
    apply replace_nomatch.
    destruct (neutral_inv c Hc) as (_ & Hm & _).
    simpl; now rewrite Hm.
  - pose proof (markdown_no_straddle (String c0 p) c z) as Hn.
    simpl append in *.
    rewrite contains_cons in Hp; apply orb_false_iff in Hp as [Hh Ht].
    rewrite replace_nomatch by (apply Hn; assumption).
    now rewrite (IH Ht).
Qed.

Lemma markdown_free_app (p : string) (c : ascii) (z : string) :
  contains (p ++ String c "") "markdown" = false ->
  neutral c = true ->
  contains z "markdown" = false ->
  contains ((p ++ String c "") ++ z) "markdown" = false.
Proof.
  intros Hp Hc Hz; induction p as [|c0 p IH].
  - simpl append; rewrite contains_cons, Hz, orb_false_r.
    destruct (neutral_inv c Hc) as (_ & Hm & _).
    simpl; now rewrite Hm.
  - pose proof (markdown_no_straddle (String c0 p) c z) as Hn.
    simpl append in *.
    rewrite contains_cons in Hp; apply orb_false_iff in Hp as [Hh Ht].
    rewrite contains_cons, (IH Ht), orb_false_r.
    apply Hn; assumption.
Qed.

(** Removing detached occurrences of [markdown] from a fence-free text
    leaves neither pattern. *)
Lemma detached_clean (y : string) :
  markdown_detached y ->
  contains y "```" = false ->
  clean (replace y "markdown" "").
Proof.
  induction 1 as [s Hs | s Hd IH | p c s Hp Hc Hd IH]; intros Hf.
  - rewrite (replace_absent _ _ _ _ Hs); split; assumption.
  - rewrite replace_app_old.
    apply contains_app_false in Hf as [_ Hf]; exact (IH Hf).
  - rewrite <- append_cons_assoc in Hf |- *.
    apply contains_app_false in Hf as [Hfp Hf].
    apply contains_app_false in Hf as [_ Hf].
    rewrite markdown_pass, replace_app_old by assumption.
    destruct (IH Hf) as [IHf IHm]; simpl append.
    destruct (neutral_inv c Hc) as (Hb & _).
    apply contains_app_false in Hfp as [Hfp _].
    split.
    + rewrite append_cons_assoc.
      apply fence_free_app; [exact Hfp | simpl; now rewrite Hb |].
      rewrite contains_cons, IHf, orb_false_r.
      simpl; now rewrite Hb.
    + apply markdown_free_app; assumption.
Qed.

(** Fences are removed behind a fence-free text and a neutral
    character as they are without them. *)
Lemma fence_pass_neutral (p : string) (c : ascii) (z : string) :
  contains p "```" = false ->
  Ascii.eqb "`" c = false ->
  replace (p ++ String c z) "```" "" = (p ++ String c "") ++ replace z "```" "".
Proof.
  intros Hp Hc.
  rewrite fence_pass by (try exact Hp; simpl; now rewrite Hc).
  now rewrite fence_copy_head, append_cons_assoc by exact Hc.
Qed.

(** On a fence-free text with detached occurrences, removing [markdown]
    before more text arrives changes nothing of the next round. *)
Lemma detached_absorb (y : string) :
  markdown_detached y ->
  contains y "```" = false ->
  forall z,
    replace (replace (replace y "markdown" "" ++ z) "```" "") "markdown" "" =
    replace (replace (y ++ z) "```" "") "markdown" "".
Proof.
  induction 1 as [s Hs | s Hd IH | p c s Hp Hc Hd IH]; intros Hf z.
  - now rewrite (replace_absent _ _ _ _ Hs).
  - apply contains_app_false in Hf as [_ Hf].
    rewrite replace_app_old; simpl append at 1.
    rewrite (IH Hf), append_assoc, fence_pass_markdown.
    now rewrite replace_app_old.
  - rewrite <- append_cons_assoc in Hf |- *.
    apply contains_app_false in Hf as [Hfp Hf].
    apply contains_app_false in Hf as [_ Hf].
    apply contains_app_false in Hfp as [Hfp _].
    destruct (neutral_inv c Hc) as (Hb & _).
    rewrite markdown_pass, replace_app_old by assumption.
    assert (E1 : ((p ++ String c "") ++ "" ++ replace s "markdown" "") ++ z =
                 p ++ String c (replace s "markdown" "" ++ z)).
    { simpl append at 3; now rewrite append_assoc, append_cons_assoc. }
    assert (E2 : ((p ++ String c "") ++ "markdown" ++ s) ++ z =
                 p ++ String c ("markdown" ++ (s ++ z))).
    { now rewrite !append_assoc. }
    rewrite E1, E2, !fence_pass_neutral, fence_pass_markdown by assumption.
    rewrite !markdown_pass, replace_app_old by assumption.
    now rewrite (IH Hf).
Qed.

(** ** The clean-up of a growing buffer *)

(** One round on top of a sanitized prefix is one round on the raw text,
    as long as every [markdown] of the prefix was detached. *)
Lemma sanitize_absorb (x y : string) :
  markdown_detached (replace x "```" "") ->
  sanitize (sanitize x ++ y) = sanitize (x ++ y).
Proof.
  intros H; unfold sanitize.
  rewrite (detached_absorb _ H (fence_removed x)).
  now rewrite fence_absorb.
Qed.

Lemma aggregate_snoc (response : string) (texts : list (option string))
    (text : option string) :
  aggregate response (texts ++ [text])%list =
  sanitize (aggregate response texts ++ or_empty text).
Proof. unfold aggregate; now rewrite fold_left_app. Qed.

Lemma detached_prefixes_snoc (texts : list (option string))
    (text : option string) :
  detached_prefixes (texts ++ [text])%list ->
  detached_prefixes texts /\
  markdown_detached (replace (join (map or_empty texts)) "```" "").
Proof.
  intros H; split.
  - intros i Hi.
    specialize (H i); rewrite length_app in H; simpl in H.
    unfold delivered in *.
    rewrite firstn_app in H.
    replace (i - List.length texts) with 0 in H by lia.
    simpl in H; rewrite app_nil_r in H.
    apply H; lia.
  - specialize (H (List.length texts)); rewrite length_app in H; simpl in H.
    unfold delivered in H.
    rewrite firstn_app, firstn_all, Nat.sub_diag in H.
    simpl in H; rewrite app_nil_r in H.
    apply H; lia.
Qed.

(** The loop agrees with one clean-up of the whole text when every
    [markdown] of the text delivered before each fragment was
    detached. *)
Lemma aggregate_sanitize_join (texts : list (option string)) :
  detached_prefixes texts ->
  aggregate "" texts = sanitize (join (map or_empty texts)).
Proof.
  induction texts as [|text texts IH] using rev_ind; intros H.
  - reflexivity.
  - apply detached_prefixes_snoc in H as [Hp Hl].
    rewrite aggregate_snoc, (IH Hp).
    rewrite sanitize_absorb by exact Hl.
    rewrite map_app, join_app; simpl.
    now rewrite append_nil_r.
Qed.

(** ** What [Markdown] makes of a text *)

Lemma Markdown_plain (env : environment) (data : string) (log : list event) :
  plain env data -> Markdown env data log = (Returned data, log).
Proof. intros [Hh Hp]; unfold Markdown; now rewrite Hh, Hp. Qed.

(** [Markdown] logs nothing. *)
Lemma Markdown_log (env : environment) (data : string) (log : list event) :
  exists r, Markdown env data log = (r, log).
Proof.
  unfold Markdown.
  destruct (startswith data "http"); [eexists; reflexivity|].
  destruct (safe_exists env log data); eexists; reflexivity.
Qed.

Lemma plain_quiet (texts : list string) :
  forallb (fun data => negb (startswith data "http")) texts = true ->
  Forall (plain quiet) texts.
Proof.
  induction texts as [|data texts IH]; intros H; constructor.
  - simpl in H; apply andb_true_iff in H as [H _].
    apply negb_true_iff in H.
    split; [exact H | intros log; destruct data; reflexivity].
  - apply IH; simpl in H; now apply andb_true_iff in H as [_ H].
Qed.

(** ** Observations on the events of a loop *)

Lemma shown_app (display_id : nat) (log new : list event) :
  shown display_id (log ++ new)%list =
  match shown display_id new with
  | Some md => Some md
  | None => shown display_id log
  end.
Proof.
  induction log as [|ev log IH]; simpl.
  - destruct (shown display_id new); reflexivity.
  - rewrite IH; destruct (shown display_id new); reflexivity.
Qed.

Lemma printed_app (log new : list event) :
  printed (log ++ new)%list = (printed log ++ printed new)%list.
Proof. apply flat_map_app. Qed.

Lemma displays_app (log new : list event) :
  displays (log ++ new)%list = (displays log ++ displays new)%list.
Proof. apply flat_map_app. Qed.

Lemma updates_app (log new : list event) :
  updates (log ++ new)%list = (updates log ++ updates new)%list.
Proof. apply flat_map_app. Qed.

Lemma requests_app (log new : list event) :
  requests (log ++ new)%list = requests log + requests new.
Proof. unfold requests; now rewrite filter_app, length_app. Qed.

Lemma shown_loop_events (display_id : nat) (response : string)
    (texts : list (option string)) :
  shown display_id (loop_events display_id response texts) =
  match texts with
  | [] => None
  | _ :: _ => Some (aggregate response texts)
  end.
Proof.
  revert response; induction texts as [|text texts IH]; intros response.
  - reflexivity.
  - simpl loop_events; simpl shown; rewrite IH.
    destruct texts; [|reflexivity].
    simpl; now rewrite Nat.eqb_refl.
Qed.

Lemma shown_other_loop_events (id id' : nat) (response : string)
    (texts : list (option string)) :
  id <> id' -> shown id (loop_events id' response texts) = None.
Proof.
  intros Hne; revert response; induction texts as [|text texts IH]; intros response.
  - reflexivity.
  - simpl loop_events; simpl shown; rewrite IH.
    apply Nat.eqb_neq in Hne; rewrite Nat.eqb_sym in Hne; now rewrite Hne.
Qed.

Lemma printed_loop_events (display_id : nat) (response : string)
    (texts : list (option string)) :
  printed (loop_events display_id response texts) = [].
Proof.
  revert response; induction texts as [|text texts IH]; intros response;
    [reflexivity | simpl; apply IH].
Qed.

Lemma displays_loop_events (id : nat) (response : string) (texts : list (option string)) :
  displays (loop_events id response texts) = [].
Proof.
  revert response; induction texts as [|text texts IH]; intros response;
    [reflexivity | simpl; apply IH].
Qed.

Lemma requests_loop_events (id : nat) (response : string) (texts : list (option string)) :
  requests (loop_events id response texts) = S (List.length texts).
Proof.
  revert response; induction texts as [|text texts IH]; intros response;
    [reflexivity|].
  simpl loop_events.
  change (requests (EvNext :: EvUpdateDisplay id ?r :: ?l)) with (S (requests l)).
  now rewrite IH.
Qed.

Lemma updates_loop_events (id : nat) (response : string) (texts : list (option string)) :
  updates (loop_events id response texts) = loop_buffers response texts.
Proof.
  revert response; induction texts as [|text texts IH]; intros response.
  - reflexivity.
  - simpl loop_events; simpl updates; simpl loop_buffers; now rewrite IH.
Qed.

(** The buffers of a loop from the empty buffer, by position. *)
Lemma loop_buffers_nth (response : string) (texts : list (option string)) :
  loop_buffers response texts =
  map (fun i => aggregate response (firstn (S i) texts)) (seq 0 (List.length texts)).
Proof.
  revert response; induction texts as [|text texts IH]; intros response.
  - reflexivity.
  - simpl loop_buffers; rewrite IH.
    simpl List.length; rewrite <- cons_seq, <- seq_shift, map_cons, map_map.
    reflexivity.
Qed.

(** What a session logs when [Markdown] takes every buffer as text, read
    back. *)
Lemma session_events_read (id : nat) (texts : list (option string)) (log : list event) :
  displays (session_events id texts) = [""] /\
  updates (session_events id texts) = loop_buffers "" texts /\
  printed (session_events id texts) = [] /\
  requests (session_events id texts) = S (List.length texts) /\
  shown id (log ++ session_events id texts)%list = Some (aggregate "" texts).
Proof.
  unfold session_events.
  split; [simpl; now rewrite displays_loop_events|].
  split; [simpl; apply updates_loop_events|].
  split; [simpl; apply printed_loop_events|].
  split.
  - change (requests (EvDisplay id "" :: ?l)) with (requests l).
    apply requests_loop_events.
  - rewrite shown_app.
    change (EvDisplay id "" :: ?l)%list with ([EvDisplay id ""] ++ l)%list.
    rewrite shown_app, shown_loop_events; simpl.
    rewrite Nat.eqb_refl; destruct texts; reflexivity.
Qed.

Lemma session_events_print_read (id : nat) (texts : list (option string))
    (log : list event) (line : string) :
  displays (session_events id texts ++ [EvPrint line]) = [""] /\
  updates (session_events id texts ++ [EvPrint line]) = loop_buffers "" texts /\
  printed (session_events id texts ++ [EvPrint line]) = [line] /\
  requests (session_events id texts ++ [EvPrint line]) = S (List.length texts) /\
  shown id (log ++ session_events id texts ++ [EvPrint line])%list =
    Some (aggregate "" texts).
Proof.
  destruct (session_events_read id texts log) as (Hd & Hu & Hp & Hr & Hs).
  rewrite displays_app, updates_app, printed_app, requests_app, Hd, Hu, Hp, Hr.
  split; [reflexivity|].
  split; [apply app_nil_r|].
  split; [reflexivity|].
  split; [unfold requests; simpl; lia|].
  rewrite app_assoc, shown_app; simpl; exact Hs.
Qed.

Lemma shown_other_session (id id' : nat) (texts : list (option string)) :
  id <> id' -> shown id (session_events id' texts) = None.
Proof.
  intros Hne; unfold session_events; simpl shown.
  rewrite (shown_other_loop_events _ _ _ _ Hne).
  apply Nat.eqb_neq in Hne; rewrite Nat.eqb_sym in Hne; now rewrite Hne.
Qed.

(** ** Streams as the loops read them *)

Lemma gpt_texts_chunks (texts : list (option string)) :
  gpt_texts (map gpt_chunk texts) = texts /\
  gpt_well_formed (map gpt_chunk texts) = true.
Proof.
  unfold gpt_well_formed; induction texts as [|text texts [IHt IHw]];
    [split; reflexivity|].
  simpl; now rewrite IHt, IHw.
Qed.

Lemma llama_texts_chunks (texts : list (option string)) :
  llama_texts (map llama_chunk texts) = texts.
Proof.
  unfold llama_texts; rewrite map_map; simpl.
  induction texts as [|text texts IH]; [reflexivity | simpl; now rewrite IH].
Qed.

Lemma gpt_texts_shorter (chunks : list openai_types.ChatCompletionChunk) :
  gpt_well_formed chunks = false ->
  List.length (gpt_texts chunks) < List.length chunks.
Proof.
  unfold gpt_well_formed; induction chunks as [|chunk chunks IH]; intros H.
  - discriminate H.
  - simpl in *; destruct (gpt_text chunk); simpl in *; [|lia].
    apply IH in H; lia.
Qed.

Lemma gpt_texts_length (chunks : list openai_types.ChatCompletionChunk) :
  gpt_well_formed chunks = true ->
  List.length (gpt_texts chunks) = List.length chunks.
Proof.
  unfold gpt_well_formed; induction chunks as [|chunk chunks IH]; intros H;
    [reflexivity|].
  simpl in *; destruct (gpt_text chunk); [|discriminate H].
  simpl; now rewrite IH.
Qed.

(** ** Running the loops *)

(** The loop of [gpt_answer] on any chunks, when [Markdown] takes every
    buffer as text. *)
Lemma gpt_loop_general (env : environment) (id : nat)
    (chunks : list openai_types.ChatCompletionChunk)
    (failure : option exn) (response : string) (log : list event) :
  Forall (plain env) (loop_buffers response (gpt_texts chunks)) ->
  gpt_loop env id chunks failure response log =
  (if gpt_well_formed chunks
   then loop_result failure (aggregate response (gpt_texts chunks))
   else Raised {| exn_class := IndexError; exn_str := "list index out of range" |},
   (log ++ loop_events id response (gpt_texts chunks))%list).
Proof.
  revert response log; induction chunks as [|chunk chunks IH]; intros response log Hp.
  - simpl; unfold bind, emit; destruct failure; reflexivity.
  - simpl gpt_loop; unfold bind at 1, emit at 1.
    unfold gpt_well_formed; simpl forallb; simpl gpt_texts in *; unfold gpt_text in *.
    destruct (openai_types.choices chunk) as [|choice others].
    + reflexivity.
    + unfold bind at 1, getitem0, ret.
      simpl loop_buffers in Hp; inversion Hp as [|b bs Hb Hbs]; subst.
      unfold bind at 1.
      change (replace (replace ?x "```" "") "markdown" "") with (sanitize x).
      rewrite (Markdown_plain _ _ _ Hb).
      unfold bind at 1, update_display, emit at 1.
      rewrite (IH _ _ Hbs), <- !app_assoc; reflexivity.
Qed.

Lemma llama_loop_general (env : environment) (id : nat)
    (chunks : list ollama_types.ChatResponse)
    (failure : option exn) (response : string) (log : list event) :
  Forall (plain env) (loop_buffers response (llama_texts chunks)) ->
  llama_loop env id chunks failure response log =
  (loop_result failure (aggregate response (llama_texts chunks)),
   (log ++ loop_events id response (llama_texts chunks))%list).
Proof.
  revert response log; induction chunks as [|chunk chunks IH]; intros response log Hp.
  - simpl; unfold bind, emit; destruct failure; reflexivity.
  - simpl llama_loop; unfold bind at 1, emit at 1.
    simpl llama_texts in *; simpl loop_buffers in Hp.
    inversion Hp as [|b bs Hb Hbs]; subst.
    unfold bind at 1.
    change (replace (replace ?x "```" "") "markdown" "") with (sanitize x).
    rewrite (Markdown_plain _ _ _ Hb).
    unfold bind at 1, update_display, emit at 1.
    rewrite (IH _ _ Hbs), <- !app_assoc; reflexivity.
Qed.

Lemma gpt_loop_run (env : environment) (display_id : nat)
    (texts : list (option string))
    (failure : option exn) (response : string) (log : list event) :
  Forall (plain env) (loop_buffers response texts) ->
  gpt_loop env display_id (map gpt_chunk texts) failure response log =
  (loop_result failure (aggregate response texts),
   (log ++ loop_events display_id response texts)%list).
Proof.
  intros Hp; destruct (gpt_texts_chunks texts) as [Ht Hw].
  rewrite gpt_loop_general, Hw, Ht by (rewrite Ht; exact Hp).
  reflexivity.
Qed.

Lemma llama_loop_run (env : environment) (display_id : nat)
    (texts : list (option string))
    (failure : option exn) (response : string) (log : list event) :
  Forall (plain env) (loop_buffers response texts) ->
  llama_loop env display_id (map llama_chunk texts) failure response log =
  (loop_result failure (aggregate response texts),
   (log ++ loop_events display_id response texts)%list).
Proof.
  intros Hp.
  rewrite llama_loop_general, llama_texts_chunks
    by (rewrite llama_texts_chunks; exact Hp).
  reflexivity.
Qed.

(** The loops in any environment: either the stream is asked for the
    chunk after the last, and the loop ends as that request does, or a
    round raised before. *)
Lemma gpt_loop_outcome (env : environment) (display_id : nat)
    (chunks : list openai_types.ChatCompletionChunk) (failure : option exn)
    (response : string) (log : list event) :
  exists new res,
    gpt_loop env display_id chunks failure response log = (res, (log ++ new)%list) /\
    printed new = [] /\
    displays new = [] /\
    ((requests new = S (List.length chunks) /\ exists b, res = loop_result failure b) \/
     (requests new <= List.length chunks /\ exists e, res = Raised e)).
Proof.
  revert response log; induction chunks as [|chunk chunks IH]; intros response log.
  - exists [EvNext], (loop_result failure response); simpl; unfold bind, emit.
    split; [destruct failure; reflexivity|].
    split; [reflexivity|]; split; [reflexivity|].
    left; split; [reflexivity | now exists response].
  - simpl gpt_loop; unfold bind at 1, emit at 1.
    destruct (openai_types.choices chunk) as [|choice others].
    + exists [EvNext]; eexists; split; [reflexivity|].
      split; [reflexivity|]; split; [reflexivity|].
      right; split; [unfold requests; simpl; lia | eexists; reflexivity].
    + unfold bind at 1, getitem0, ret; unfold bind at 1.
      match goal with
      | |- context [Markdown env ?d ?l] =>
          destruct (Markdown_log env d l) as [[md|e] Hmd]; rewrite Hmd
      end.
      * unfold bind at 1, update_display, emit at 1.
        match goal with
        | |- context [gpt_loop _ _ _ _ ?r ?l] =>
            destruct (IH r l) as (new & res & Hrun & Hp & Hd & Hres)
        end.
        rewrite Hrun, <- !app_assoc.
        eexists; exists res; split; [reflexivity|].
        split; [exact Hp|]; split; [exact Hd|].
        destruct Hres as [[Hr Hb] | [Hr He]]; [left | right]; (split; [|assumption]);
          unfold requests in *; simpl; lia.
      * exists [EvNext]; eexists; split; [reflexivity|].
        split; [reflexivity|]; split; [reflexivity|].
        right; split; [unfold requests; simpl; lia | eexists; reflexivity].
Qed.

Lemma llama_loop_outcome (env : environment) (display_id : nat)
    (chunks : list ollama_types.ChatResponse) (failure : option exn)
    (response : string) (log : list event) :
  exists new res,
    llama_loop env display_id chunks failure response log = (res, (log ++ new)%list) /\
    printed new = [] /\
    displays new = [] /\
    ((requests new = S (List.length chunks) /\ exists b, res = loop_result failure b) \/
     (requests new <= List.length chunks /\ exists e, res = Raised e)).
Proof.
  revert response log; induction chunks as [|chunk chunks IH]; intros response log.
  - exists [EvNext], (loop_result failure response); simpl; unfold bind, emit.
    split; [destruct failure; reflexivity|].
    split; [reflexivity|]; split; [reflexivity|].
    left; split; [reflexivity | now exists response].
  - simpl llama_loop; unfold bind at 1, emit at 1; unfold bind at 1.
    match goal with
    | |- context [Markdown env ?d ?l] =>
        destruct (Markdown_log env d l) as [[md|e] Hmd]; rewrite Hmd
    end.
    + unfold bind at 1, update_display, emit at 1.
      match goal with
      | |- context [llama_loop _ _ _ _ ?r ?l] =>
          destruct (IH r l) as (new & res & Hrun & Hp & Hd & Hres)
      end.
      rewrite Hrun, <- !app_assoc.
      eexists; exists res; split; [reflexivity|].
      split; [exact Hp|]; split; [exact Hd|].
      destruct Hres as [[Hr Hb] | [Hr He]]; [left | right]; (split; [|assumption]);
        unfold requests in *; simpl; lia.
    + exists [EvNext]; eexists; split; [reflexivity|].
      split; [reflexivity|]; split; [reflexivity|].
      right; split; [unfold requests; simpl; lia | eexists; reflexivity].
Qed.

(** ** Running the wrappers *)

Lemma gpt_try_not_opened (env : environment)
    (openai : backend openai_types.ChatCompletionChunk)
    (prompts : list message) (log : list event) (e : exn) :
  openai MODEL_GPT prompts = Raised e ->
  gpt_try env openai prompts log = (Raised e, log).
Proof. intros H; unfold gpt_try, bind, call; now rewrite H. Qed.

Lemma llama_try_not_opened (env : environment)
    (ollama_chat : backend ollama_types.ChatResponse)
    (prompts : list message) (log : list event) (e : exn) :
  ollama_chat MODEL_LLAMA prompts = Raised e ->
  llama_try env ollama_chat prompts log = (Raised e, log).
Proof. intros H; unfold llama_try, bind, call; now rewrite H. Qed.

Lemma gpt_try_opened (env : environment)
    (openai : backend openai_types.ChatCompletionChunk)
    (prompts : list message) (log : list event)
    (st : stream openai_types.ChatCompletionChunk) :
  openai MODEL_GPT prompts = Returned st ->
  gpt_try env openai prompts log =
  gpt_loop env (new_id env log) (chunks st) (failure st) ""
           (log ++ [EvDisplay (new_id env log) ""])%list.
Proof. intros H; unfold gpt_try, bind, call, display; now rewrite H. Qed.

Lemma llama_try_opened (env : environment)
    (ollama_chat : backend ollama_types.ChatResponse)
    (prompts : list message) (log : list event)
    (st : stream ollama_types.ChatResponse) :
  ollama_chat MODEL_LLAMA prompts = Returned st ->
  llama_try env ollama_chat prompts log =
  llama_loop env (new_id env log) (chunks st) (failure st) ""
             (log ++ [EvDisplay (new_id env log) ""])%list.
Proof. intros H; unfold llama_try, bind, call, display; now rewrite H. Qed.

Lemma gpt_answer_of_try (env : environment)
    (openai : backend openai_types.ChatCompletionChunk)
    (prompts : list message) (log : list event) :
  gpt_answer env openai prompts log =
  match gpt_try env openai prompts log with
  | (Returned _, log') => (Returned tt, log')
  | (Raised e, log') =>
      if isinstance_Exception (exn_class e)
      then (Returned tt, (log' ++ [EvPrint (diagnostic e)])%list)
      else (Raised e, log')
  end.
Proof.
  unfold gpt_answer, try_except_Exception, bind, ret, print, emit.
  destruct (gpt_try env openai prompts log) as [[r|e] log']; reflexivity.
Qed.

Lemma llama_answer_of_try (env : environment)
    (ollama_chat : backend ollama_types.ChatResponse)
    (prompts : list message) (log : list event) :
  llama_answer env ollama_chat prompts log =
  match llama_try env ollama_chat prompts log with
  | (Returned _, log') => (Returned tt, log')
  | (Raised e, log') =>
      if isinstance_Exception (exn_class e)
      then (Returned tt, (log' ++ [EvPrint (diagnostic e)])%list)
      else (Raised e, log')
  end.
Proof.
  unfold llama_answer, try_except_Exception, bind, ret, print, emit.
  destruct (llama_try env ollama_chat prompts log) as [[r|e] log']; reflexivity.
Qed.

Lemma gpt_answer_general (env : environment)
    (openai : backend openai_types.ChatCompletionChunk)
    (prompts : list message) (log : list event)
    (st : stream openai_types.ChatCompletionChunk) :
  openai MODEL_GPT prompts = Returned st ->
  Forall (plain env) (loop_buffers "" (gpt_texts (chunks st))) ->
  gpt_try env openai prompts log =
  (if gpt_well_formed (chunks st)
   then loop_result (failure st) (aggregate "" (gpt_texts (chunks st)))
   else Raised {| exn_class := IndexError; exn_str := "list index out of range" |},
   (log ++ session_events (new_id env log) (gpt_texts (chunks st)))%list).
Proof.
  intros H Hp; rewrite (gpt_try_opened _ _ _ _ _ H), gpt_loop_general by exact Hp.
  unfold session_events; now rewrite <- app_assoc.
Qed.

Lemma llama_answer_general (env : environment)
    (ollama_chat : backend ollama_types.ChatResponse)
    (prompts : list message) (log : list event)
    (st : stream ollama_types.ChatResponse) :
  ollama_chat MODEL_LLAMA prompts = Returned st ->
  Forall (plain env) (loop_buffers "" (llama_texts (chunks st))) ->
  llama_try env ollama_chat prompts log =
  (loop_result (failure st) (aggregate "" (llama_texts (chunks st))),
   (log ++ session_events (new_id env log) (llama_texts (chunks st)))%list).
Proof.
  intros H Hp; rewrite (llama_try_opened _ _ _ _ _ H), llama_loop_general by exact Hp.
  unfold session_events; now rewrite <- app_assoc.
Qed.

Lemma diagnostic_phrase (e : exn) :
  startswith (diagnostic e) "An error occurred while streaming the answer" = true.
Proof. reflexivity. Qed.

(** The [try] block of [gpt_answer] on a stream of chunks that carry the
    given texts. *)
Lemma gpt_try_texts (env : environment)
    (openai : backend openai_types.ChatCompletionChunk)
    (prompts : list message) (log : list event)
    (texts : list (option string)) (ending : option exn) :
  openai MODEL_GPT prompts =
    Returned {| chunks := map gpt_chunk texts; failure := ending |} ->
  Forall (plain env) (loop_buffers "" texts) ->
  gpt_try env openai prompts log =
  (loop_result ending (aggregate "" texts),
   (log ++ session_events (new_id env log) texts)%list).
Proof.
  intros H Hp; rewrite (gpt_try_opened _ _ _ _ _ H); simpl chunks; simpl failure.
  rewrite gpt_loop_run by exact Hp.
  unfold session_events; now rewrite <- app_assoc.
Qed.

(** ** The aggregation loop and one clean-up of the whole text *)

(** C1, as amended.  For every sequence of fragment texts (a missing text
    counts as the empty string) consumed by the loop of either wrapper
    from an empty buffer, when [Markdown] takes every buffer of the loop
    as text (none starts with ["http"], none names an existing path),
    the final value of [response] equals [sanitize] of the concatenation
    of the fragments whenever, for every [i] below the number of
    fragments, every occurrence of ["markdown"] in the first [i]
    fragments joined and stripped of their fences is detached: directly
    after the start of the text, after another occurrence of
    ["markdown"], or after a character other than a backtick and the
    letters m, a, r, k, d, o, w. *)
Theorem aggregation_final_buffer (env : environment) (display_id : nat)
    (texts : list (option string)) (log : list event) :
  Forall (plain env) (loop_buffers "" texts) ->
  detached_prefixes texts ->
  fst (gpt_loop env display_id (map gpt_chunk texts) None "" log) =
    Returned (sanitize (join (map or_empty texts))) /\
  fst (llama_loop env display_id (map llama_chunk texts) None "" log) =
    Returned (sanitize (join (map or_empty texts))).
Proof.
  intros Hp H.
  rewrite gpt_loop_run, llama_loop_run by exact Hp; simpl.
  now rewrite (aggregate_sanitize_join texts H).
Qed.

Lemma aggregation_final_buffer_witness :
  fst (gpt_loop quiet 0
         (map gpt_chunk [Some "```"; Some "markdown"; None; Some "# Title```"])
         None "" []) =
    Returned (sanitize (join (map or_empty
                [Some "```"; Some "markdown"; None; Some "# Title```"]))) /\
  fst (llama_loop quiet 0
         (map llama_chunk [Some "```"; Some "markdown"; None; Some "# Title```"])
         None "" []) =
    Returned (sanitize (join (map or_empty
                [Some "```"; Some "markdown"; None; Some "# Title```"]))).
Proof.
  apply (aggregation_final_buffer quiet 0
           [Some "```"; Some "markdown"; None; Some "# Title```"] []).
  - apply plain_quiet; reflexivity.
  - intros i Hi.
    destruct i as [|[|[|[|i]]]]; [| | | |simpl in Hi; lia].
    + apply detached_free; reflexivity.
    + apply detached_free; reflexivity.
    + apply (detached_first ""), detached_free; reflexivity.
    + apply (detached_first ""), detached_free; reflexivity.
Defined.

(** C1, counterexample: on the fragments ["``markdown"; "`"], whose
    buffers [Markdown] takes as text, the loop ends with the empty
    buffer, while one clean-up of the concatenation gives ["```"]. *)
Lemma aggregation_differs_from_sanitize_join :
  Forall (plain quiet) (loop_buffers "" [Some "``markdown"; Some "`"]) /\
  fst (gpt_loop quiet 0 (map gpt_chunk [Some "``markdown"; Some "`"]) None "" []) <>
  Returned (sanitize (join ["``markdown"; "`"])).
Proof.
  split; [apply plain_quiet; reflexivity|].
  vm_compute; intros H; discriminate H.
Qed.

(** ** Idempotence of the clean-up *)

(** C2, as amended.  For every string [x], [sanitize (sanitize x)] equals
    [sanitize x] exactly when [sanitize x] contains no ["```"] and no
    ["markdown"]; it does in particular whenever every occurrence of
    ["markdown"] in [x.replace("```","")] is detached: directly after the
    start of the text, after another occurrence of ["markdown"], or
    after a character other than a backtick and the letters m, a, r, k,
    d, o, w. *)
Theorem sanitize_idempotent_iff_clean (x : string) :
  (sanitize (sanitize x) = sanitize x <-> clean (sanitize x)) /\
  (markdown_detached (replace x "```" "") -> sanitize (sanitize x) = sanitize x).
Proof.
  split.
  - split; [apply sanitize_fixed_clean | apply sanitize_clean_fixed].
  - intros H; apply sanitize_clean_fixed.
    apply detached_clean; [exact H | apply fence_removed].
Qed.

Lemma sanitize_idempotent_iff_clean_witness :
  markdown_detached (replace "```markdown # Title```" "```" "") /\
  sanitize (sanitize "```markdown # Title```") = sanitize "```markdown # Title```".
Proof.
  assert (H : markdown_detached (replace "```markdown # Title```" "```" "")).
  { apply (detached_first " # Title"), detached_free; reflexivity. }
  split; [exact H|].
  exact (proj2 (sanitize_idempotent_iff_clean "```markdown # Title```") H).
Defined.

(** C2, counterexample: [sanitize] of ["``markdown`"] is ["```"], which
    a second [sanitize] empties. *)
Lemma sanitize_not_idempotent :
  sanitize (sanitize "``markdown`") <> sanitize "``markdown`".
Proof. vm_compute; intros H; discriminate H. Qed.

(** ** What the clean-up removes *)

(** C3, as amended.  For every string [x], the intermediate result
    [x.replace("```","")] contains no ["```"]; and the result of the
    sanitize step contains neither ["```"] nor ["markdown"] whenever
    every occurrence of ["markdown"] in that intermediate result is
    detached: directly after the start of the text, after another
    occurrence of ["markdown"], or after a character other than a
    backtick and the letters m, a, r, k, d, o, w.  An occurrence formed
    by joining the text around a removed ["markdown"] stays. *)
Theorem sanitize_removal (x : string) :
  contains (replace x "```" "") "```" = false /\
  (markdown_detached (replace x "```" "") -> clean (sanitize x)).
Proof.
  split; [apply fence_removed|].
  intros H; apply detached_clean; [exact H | apply fence_removed].
Qed.

Lemma sanitize_removal_witness :
  markdown_detached (replace "see ```markdown # Title```" "```" "") /\
  clean (sanitize "see ```markdown # Title```").
Proof.
  assert (H : markdown_detached (replace "see ```markdown # Title```" "```" "")).
  { apply (detached_after "see" " "%char " # Title");
      [reflexivity | reflexivity | apply detached_free; reflexivity]. }
  split; [exact H|].
  exact (proj2 (sanitize_removal "see ```markdown # Title```") H).
Defined.

(** C3, counterexample: the result of the sanitize step on
    ["``markdown`"] is ["```"]. *)
Lemma sanitize_leaves_fence : ~ clean (sanitize "``markdown`").
Proof. intros [H _]; vm_compute in H; discriminate H. Qed.

(** ** Exceptions in the wrappers *)

(** C4, as amended.  For every input and every exception [e]: when
    opening the stream raises [e], each wrapper prints the diagnostic of
    [e] and returns normally if [e] is an instance of [Exception], and
    is left by [e] with nothing printed if it is not (a
    [KeyboardInterrupt], [SystemExit] or [GeneratorExit]).  When the
    stream raises [e] after any chunks, the [try] block of each wrapper
    is left by an exception [e'], with no line printed inside it: [e']
    is [e] whenever the request that raises [e] is made, and it is made
    whenever no earlier round raises, so when every chunk has a choice
    and [Markdown] takes every buffer as text; the wrapper prints the
    diagnostic of [e'] and returns normally if [e'] is an instance of
    [Exception], and is left by [e'] with nothing printed if it is not.
    Every diagnostic starts with the words
    [An error occurred while streaming the answer]. *)
Theorem wrappers_catch_Exception (env : environment) (prompts : list message)
    (log : list event) (e : exn) :
  (forall openai, openai MODEL_GPT prompts = Raised e ->
     (isinstance_Exception (exn_class e) = true ->
      gpt_answer env openai prompts log =
        (Returned tt, (log ++ [EvPrint (diagnostic e)])%list)) /\
     (isinstance_Exception (exn_class e) = false ->
      gpt_answer env openai prompts log = (Raised e, log))) /\
  (forall ollama_chat, ollama_chat MODEL_LLAMA prompts = Raised e ->
     (isinstance_Exception (exn_class e) = true ->
      llama_answer env ollama_chat prompts log =
        (Returned tt, (log ++ [EvPrint (diagnostic e)])%list)) /\
     (isinstance_Exception (exn_class e) = false ->
      llama_answer env ollama_chat prompts log = (Raised e, log))) /\
  (forall openai cs,
     openai MODEL_GPT prompts = Returned {| chunks := cs; failure := Some e |} ->
     exists new e',
       printed new = [] /\
       requests new <= S (List.length cs) /\
       (requests new = S (List.length cs) -> e' = e) /\
       (gpt_well_formed cs = true ->
        Forall (plain env) (loop_buffers "" (gpt_texts cs)) ->
        requests new = S (List.length cs)) /\
       (isinstance_Exception (exn_class e') = true ->
        gpt_answer env openai prompts log =
          (Returned tt, (log ++ new ++ [EvPrint (diagnostic e')])%list)) /\
       (isinstance_Exception (exn_class e') = false ->
        gpt_answer env openai prompts log = (Raised e', (log ++ new)%list))) /\
  (forall ollama_chat cs,
     ollama_chat MODEL_LLAMA prompts = Returned {| chunks := cs; failure := Some e |} ->
     exists new e',
       printed new = [] /\
       requests new <= S (List.length cs) /\
       (requests new = S (List.length cs) -> e' = e) /\
       (Forall (plain env) (loop_buffers "" (llama_texts cs)) ->
        requests new = S (List.length cs)) /\
       (isinstance_Exception (exn_class e') = true ->
        llama_answer env ollama_chat prompts log =
          (Returned tt, (log ++ new ++ [EvPrint (diagnostic e')])%list)) /\
       (isinstance_Exception (exn_class e') = false ->
        llama_answer env ollama_chat prompts log = (Raised e', (log ++ new)%list))) /\
  (forall e', startswith (diagnostic e')
                "An error occurred while streaming the answer" = true).
Proof.
  split; [|split; [|split; [|split; [|exact diagnostic_phrase]]]].
  - intros openai H; split; intros He;
      now rewrite gpt_answer_of_try, (gpt_try_not_opened _ _ _ _ _ H), He.
  - intros ollama_chat H; split; intros He;
      now rewrite llama_answer_of_try, (llama_try_not_opened _ _ _ _ _ H), He.
  - intros openai cs H.
    rewrite gpt_answer_of_try, (gpt_try_opened _ _ _ _ _ H); simpl chunks; simpl failure.
    destruct (gpt_loop_outcome env (new_id env log) cs (Some e) ""
                (log ++ [EvDisplay (new_id env log) ""])%list)
      as (new & res & Hrun & Hp & Hd & Hres).
    assert (Hfull : gpt_well_formed cs = true ->
                    Forall (plain env) (loop_buffers "" (gpt_texts cs)) ->
                    requests new = S (List.length cs)).
    { intros Hw Hplain.
      rewrite gpt_loop_general in Hrun by exact Hplain.
      injection Hrun as _ Hlog; apply app_inv_head in Hlog; subst new.
      now rewrite requests_loop_events, gpt_texts_length. }
    rewrite Hrun.
    assert (Hex : exists e', res = Raised e' /\
                             requests new <= S (List.length cs) /\
                             (requests new = S (List.length cs) -> e' = e)).
    { destruct Hres as [[Hr [b Hb]] | [Hr [e' He']]].
      - exists e; split; [exact Hb|]; split; [lia | reflexivity].
      - exists e'; split; [exact He'|]; split; [lia | intros Heq; lia]. }
    destruct Hex as (e' & -> & Hle & Hlast).
    exists (EvDisplay (new_id env log) "" :: new), e'.
    split; [exact Hp|].
    split; [exact Hle|]; split; [exact Hlast|]; split; [exact Hfull|].
    split; intros He'; rewrite He', <- !app_assoc; reflexivity.
  - intros ollama_chat cs H.
    rewrite llama_answer_of_try, (llama_try_opened _ _ _ _ _ H); simpl chunks; simpl failure.
    destruct (llama_loop_outcome env (new_id env log) cs (Some e) ""
                (log ++ [EvDisplay (new_id env log) ""])%list)
      as (new & res & Hrun & Hp & Hd & Hres).
    assert (Hfull : Forall (plain env) (loop_buffers "" (llama_texts cs)) ->
                    requests new = S (List.length cs)).
    { intros Hplain.
      rewrite llama_loop_general in Hrun by exact Hplain.
      injection Hrun as _ Hlog; apply app_inv_head in Hlog; subst new.
      rewrite requests_loop_events; unfold llama_texts; now rewrite length_map. }
    rewrite Hrun.
    assert (Hex : exists e', res = Raised e' /\
                             requests new <= S (List.length cs) /\
                             (requests new = S (List.length cs) -> e' = e)).
    { destruct Hres as [[Hr [b Hb]] | [Hr [e' He']]].
      - exists e; split; [exact Hb|]; split; [lia | reflexivity].
      - exists e'; split; [exact He'|]; split; [lia | intros Heq; lia]. }
    destruct Hex as (e' & -> & Hle & Hlast).
    exists (EvDisplay (new_id env log) "" :: new), e'.
    split; [exact Hp|].
    split; [exact Hle|]; split; [exact Hlast|]; split; [exact Hfull|].
    split; intros He'; rewrite He', <- !app_assoc; reflexivity.
Qed.

Lemma wrappers_catch_Exception_witness :
  gpt_answer quiet
    (fun _ _ => Raised {| exn_class := OtherException "APIConnectionError";
                          exn_str := "Connection error." |})
    (the_prompts "What is a closure?") [] =
  (Returned tt,
   [EvPrint "An error occurred while streaming the answer for your question: Connection error."]).
Proof.
  apply (proj1 (wrappers_catch_Exception quiet (the_prompts "What is a closure?") []
                  {| exn_class := OtherException "APIConnectionError";
                     exn_str := "Connection error." |})).
  - reflexivity.
  - reflexivity.
Defined.

(** C4, counterexample: a [KeyboardInterrupt] raised while opening the
    stream leaves [gpt_answer] as it came, with nothing printed. *)
Lemma gpt_answer_KeyboardInterrupt_propagates :
  gpt_answer quiet
    (fun _ _ => Raised {| exn_class := KeyboardInterrupt; exn_str := "" |})
    (the_prompts "What is a closure?") [] =
  (Raised {| exn_class := KeyboardInterrupt; exn_str := "" |}, []).
Proof. reflexivity. Qed.

(** C5, as amended.  If the stream of [gpt_answer] yields the fragments
    [F1..Fk] and then raises an exception that is an instance of
    [Exception], and [Markdown] takes every buffer of the loop as text
    (none starts with ["http"], none names an existing path), the last
    content pushed to the display is the buffer after [k] rounds of the
    loop, the only line printed is the diagnostic of the exception, and
    the wrapper returns normally; that buffer equals [sanitize] of the
    concatenation of [F1..Fk] whenever, for every [i] below [k], every
    occurrence of ["markdown"] in the first [i] fragments joined and
    stripped of their fences is detached. *)
Theorem gpt_answer_partial_stream (env : environment)
    (openai : backend openai_types.ChatCompletionChunk)
    (prompts : list message) (log : list event)
    (texts : list (option string)) (e : exn) :
  openai MODEL_GPT prompts =
    Returned {| chunks := map gpt_chunk texts; failure := Some e |} ->
  isinstance_Exception (exn_class e) = true ->
  Forall (plain env) (loop_buffers "" texts) ->
  exists new,
    gpt_answer env openai prompts log = (Returned tt, (log ++ new)%list) /\
    shown (new_id env log) (log ++ new)%list = Some (aggregate "" texts) /\
    updates new = loop_buffers "" texts /\
    printed new = [diagnostic e] /\
    (detached_prefixes texts ->
     aggregate "" texts = sanitize (join (map or_empty texts))).
Proof.
  intros Hopen He Hplain.
  exists (session_events (new_id env log) texts ++ [EvPrint (diagnostic e)])%list.
  rewrite gpt_answer_of_try, (gpt_try_texts _ _ _ _ _ _ Hopen Hplain).
  unfold loop_result; rewrite He.
  destruct (session_events_print_read (new_id env log) texts log (diagnostic e))
    as (_ & Hu & Hp & _ & Hs).
  split; [now rewrite <- !app_assoc|].
  split; [exact Hs|]; split; [exact Hu|]; split; [exact Hp|].
  apply aggregate_sanitize_join.
Qed.

Lemma gpt_answer_partial_stream_witness :
  exists new,
    gpt_answer quiet
      (fun _ _ => Returned {| chunks := map gpt_chunk [Some "```mark"; Some "down Hel"; Some "lo"];
                              failure := Some {| exn_class := OtherException "APITimeoutError";
                                                 exn_str := "Request timed out." |} |})
      (the_prompts "What is a closure?") [] = (Returned tt, new) /\
    shown 0 new = Some (sanitize (join ["```mark"; "down Hel"; "lo"])) /\
    printed new =
      ["An error occurred while streaming the answer for your question: Request timed out."].
Proof.
  assert (Hplain : Forall (plain quiet)
                     (loop_buffers "" [Some "```mark"; Some "down Hel"; Some "lo"]))
    by (apply plain_quiet; reflexivity).
  destruct (gpt_answer_partial_stream quiet
              (fun _ _ => Returned {| chunks := map gpt_chunk
                                         [Some "```mark"; Some "down Hel"; Some "lo"];
                                      failure := Some {| exn_class := OtherException "APITimeoutError";
                                                         exn_str := "Request timed out." |} |})
              (the_prompts "What is a closure?") []
              [Some "```mark"; Some "down Hel"; Some "lo"]
              {| exn_class := OtherException "APITimeoutError"; exn_str := "Request timed out." |}
              eq_refl eq_refl Hplain)
    as (new & Hrun & Hshown & _ & Hprinted & Hsan).
  exists new; split; [exact Hrun|]; split; [|exact Hprinted].
  transitivity (Some (aggregate "" [Some "```mark"; Some "down Hel"; Some "lo"]));
    [exact Hshown|].
  apply (f_equal Some), Hsan.
  intros i Hi.
  destruct i as [|[|[|i]]]; [| | |simpl in Hi; lia].
  - apply detached_free; reflexivity.
  - apply detached_free; reflexivity.
  - apply (detached_first " Hel"), detached_free; reflexivity.
Defined.

(** C5, counterexample: after the fragments ["``markdown"; "`"], whose
    buffers [Markdown] takes as text, and a time-out, the display shows
    the empty text, not [sanitize] of the concatenation, which is
    ["```"]. *)
Lemma gpt_answer_partial_stream_differs :
  Forall (plain quiet) (loop_buffers "" [Some "``markdown"; Some "`"]) /\
  shown 0
    (snd (gpt_answer quiet
            (fun _ _ => Returned {| chunks := map gpt_chunk [Some "``markdown"; Some "`"];
                                    failure := Some {| exn_class := OtherException "APITimeoutError";
                                                       exn_str := "Request timed out." |} |})
            (the_prompts "What is a closure?") [])) <>
  Some (sanitize (join ["``markdown"; "`"])).
Proof.
  split; [apply plain_quiet; reflexivity|].
  vm_compute; intros H; discriminate H.
Qed.

(** ** The prompt builder *)




(** ** The empty stream *)

(** C7.  If the stream yields no fragment and ends, either wrapper
    creates the display with the empty text, sends it no update, prints
    nothing and returns normally. *)
Theorem empty_stream_no_update (env : environment) (prompts : list message)
    (log : list event) :
  (forall openai,
     openai MODEL_GPT prompts = Returned {| chunks := []; failure := None |} ->
     exists new,
       gpt_answer env openai prompts log = (Returned tt, (log ++ new)%list) /\
       displays new = [""] /\ updates new = [] /\ printed new = []) /\
  (forall ollama_chat,
     ollama_chat MODEL_LLAMA prompts = Returned {| chunks := []; failure := None |} ->
     exists new,
       llama_answer env ollama_chat prompts log = (Returned tt, (log ++ new)%list) /\
       displays new = [""] /\ updates new = [] /\ printed new = []).
Proof.
  split.
  - intros openai H.
    exists [EvDisplay (new_id env log) ""; EvNext].
    rewrite gpt_answer_of_try, (gpt_try_opened _ _ _ _ _ H); simpl.
    unfold bind, emit, ret; rewrite <- app_assoc; auto.
  - intros ollama_chat H.
    exists [EvDisplay (new_id env log) ""; EvNext].
    rewrite llama_answer_of_try, (llama_try_opened _ _ _ _ _ H); simpl.
    unfold bind, emit, ret; rewrite <- app_assoc; auto.
Qed.

Lemma empty_stream_no_update_witness :
  exists new,
    gpt_answer quiet (fun _ _ => Returned {| chunks := []; failure := None |})
      (the_prompts "What is a closure?") [] = (Returned tt, ([] ++ new)%list) /\
    displays new = [""] /\ updates new = [] /\ printed new = [].
Proof.
  apply (proj1 (empty_stream_no_update quiet (the_prompts "What is a closure?") [])).
  reflexivity.
Defined.

(** ** The example of the specification *)



(** ** The missing credential *)

(** C9.  When [OPENAI_API_KEY] is absent, opening the streaming request
    raises an [AuthenticationError]; the [try] block of [gpt_answer]
    raises it with nothing logged, so before any fragment is requested
    and before any display is created, and [gpt_answer] logs only the
    diagnostic.  Whatever the backend, an exception raised on opening
    leaves the [try] block before the display is created. *)
Theorem gpt_answer_missing_credential (env : environment)
    (getenv : string -> option string)
    (service : string -> backend openai_types.ChatCompletionChunk)
    (prompts : list message) (log : list event) :
  getenv "OPENAI_API_KEY" = None ->
  (exists e,
     exn_class e = AuthenticationError /\
     OpenAI getenv service MODEL_GPT prompts = Raised e /\
     gpt_try env (OpenAI getenv service) prompts log = (Raised e, log) /\
     exists new,
       gpt_answer env (OpenAI getenv service) prompts log =
         (Returned tt, (log ++ new)%list) /\
       requests new = 0 /\ displays new = [] /\ updates new = []) /\
  (forall openai e,
     openai MODEL_GPT prompts = Raised e ->
     gpt_try env openai prompts log = (Raised e, log)).
Proof.
  intros Henv; split; [|intros openai e; apply gpt_try_not_opened].
  assert (Hopen : OpenAI getenv service MODEL_GPT prompts =
                  Raised {| exn_class := AuthenticationError;
                            exn_str := "No API key provided" |}).
  { unfold OpenAI; now rewrite Henv. }
  eexists; split; [|split; [exact Hopen|split]].
  - reflexivity.
  - apply gpt_try_not_opened, Hopen.
  - eexists.
    rewrite gpt_answer_of_try, (gpt_try_not_opened _ _ _ _ _ Hopen); simpl.
    split; [reflexivity|]; repeat split.
Qed.

Lemma gpt_answer_missing_credential_witness :
  exists e,
    exn_class e = AuthenticationError /\
    gpt_try quiet
      (OpenAI (fun _ => None)
         (fun _ _ _ => Returned {| chunks := [gpt_chunk (Some "Hello")];
                                   failure := None |}))
      (the_prompts "What is a closure?") [] = (Raised e, []).
Proof.
  destruct (proj1 (gpt_answer_missing_credential quiet (fun _ => None)
                     (fun _ _ _ => Returned {| chunks := [gpt_chunk (Some "Hello")];
                                               failure := None |})
                     (the_prompts "What is a closure?") [] eq_refl))
    as (e & Hclass & _ & Htry & _).
  exists e; split; [exact Hclass | exact Htry].
Defined.

(** ** The two wrappers side by side *)

(** C10.  On the same fragment texts the loops of [gpt_answer] and
    [llama_answer] return the same final buffer and log the same
    events, from any buffer and log and whatever ends the stream; so do
    the wrappers when their backends deliver the same texts. *)
Theorem gpt_llama_loops_agree :
  (forall env display_id texts failure response log,
     gpt_loop env display_id (map gpt_chunk texts) failure response log =
     llama_loop env display_id (map llama_chunk texts) failure response log) /\
  (forall env openai ollama_chat prompts texts failure log,
     openai MODEL_GPT prompts =
       Returned {| chunks := map gpt_chunk texts; failure := failure |} ->
     ollama_chat MODEL_LLAMA prompts =
       Returned {| chunks := map llama_chunk texts; failure := failure |} ->
     gpt_answer env openai prompts log = llama_answer env ollama_chat prompts log).
Proof.
  assert (Hloop : forall env display_id texts failure response log,
     gpt_loop env display_id (map gpt_chunk texts) failure response log =
     llama_loop env display_id (map llama_chunk texts) failure response log).
  { intros env display_id texts failure.
    induction texts as [|text texts IH]; intros response log.
    - reflexivity.
    - simpl map; simpl gpt_loop; simpl llama_loop.
      cbv [bind emit getitem0 ret update_display]; simpl.
      destruct (Markdown env _ _) as [[md|e] log']; [apply IH | reflexivity]. }
  split; [exact Hloop|].
  intros env openai ollama_chat prompts texts ending log Hg Hl.
  rewrite gpt_answer_of_try, llama_answer_of_try.
  rewrite (gpt_try_opened _ _ _ _ _ Hg), (llama_try_opened _ _ _ _ _ Hl).
  simpl chunks; simpl failure; now rewrite Hloop.
Qed.

Lemma gpt_llama_loops_agree_witness :
  gpt_answer quiet
    (fun _ _ => Returned {| chunks := map gpt_chunk [Some "```py"; None; Some "thon"];
                            failure := None |})
    (the_prompts "What is a closure?") [] =
  llama_answer quiet
    (fun _ _ => Returned {| chunks := map llama_chunk [Some "```py"; None; Some "thon"];
                            failure := None |})
    (the_prompts "What is a closure?") [].
Proof.
  apply (proj2 gpt_llama_loops_agree quiet _ _ _ [Some "```py"; None; Some "thon"] None);
    reflexivity.
Defined.

(** * Further properties of the notebook's code *)

(** ** A stream that ends normally *)

(** X1.  When the stream delivers its chunks and ends, and [Markdown]
    takes every buffer of the loop as text (none starts with ["http"],
    none names an existing path), [gpt_answer] (every chunk having a
    choice) and [llama_answer] return normally and print nothing; each
    creates one display with the empty text, asks the stream once per
    chunk and once more, and sends one update per chunk, the update
    after chunk [i] being the whole buffer after [i] rounds; the display
    ends showing the final buffer. *)
Theorem wrappers_complete_stream (env : environment) (prompts : list message)
    (log : list event) :
  (forall openai st,
     openai MODEL_GPT prompts = Returned st ->
     failure st = None ->
     gpt_well_formed (chunks st) = true ->
     Forall (plain env) (loop_buffers "" (gpt_texts (chunks st))) ->
     exists new,
       gpt_answer env openai prompts log = (Returned tt, (log ++ new)%list) /\
       displays new = [""] /\
       updates new = loop_buffers "" (gpt_texts (chunks st)) /\
       printed new = [] /\
       requests new = S (List.length (chunks st)) /\
       shown (new_id env log) (log ++ new)%list =
         Some (aggregate "" (gpt_texts (chunks st)))) /\
  (forall ollama_chat st,
     ollama_chat MODEL_LLAMA prompts = Returned st ->
     failure st = None ->
     Forall (plain env) (loop_buffers "" (llama_texts (chunks st))) ->
     exists new,
       llama_answer env ollama_chat prompts log = (Returned tt, (log ++ new)%list) /\
       displays new = [""] /\
       updates new = loop_buffers "" (llama_texts (chunks st)) /\
       printed new = [] /\
       requests new = S (List.length (chunks st)) /\
       shown (new_id env log) (log ++ new)%list =
         Some (aggregate "" (llama_texts (chunks st)))).
Proof.
  split.
  - intros openai st Hopen Hend Hwf Hplain.
    exists (session_events (new_id env log) (gpt_texts (chunks st))).
    rewrite gpt_answer_of_try, (gpt_answer_general _ _ _ _ _ Hopen Hplain), Hwf, Hend.
    destruct (session_events_read (new_id env log) (gpt_texts (chunks st)) log)
      as (Hd & Hu & Hp & Hr & Hs).
    split; [reflexivity|].
    split; [exact Hd|]; split; [exact Hu|]; split; [exact Hp|]; split; [|exact Hs].
    now rewrite Hr, gpt_texts_length.
  - intros ollama_chat st Hopen Hend Hplain.
    exists (session_events (new_id env log) (llama_texts (chunks st))).
    rewrite llama_answer_of_try, (llama_answer_general _ _ _ _ _ Hopen Hplain), Hend.
    destruct (session_events_read (new_id env log) (llama_texts (chunks st)) log)
      as (Hd & Hu & Hp & Hr & Hs).
    split; [reflexivity|].
    split; [exact Hd|]; split; [exact Hu|]; split; [exact Hp|]; split; [|exact Hs].
    rewrite Hr; unfold llama_texts; now rewrite length_map.
Qed.

Lemma wrappers_complete_stream_witness :
  exists new,
    gpt_answer quiet
      (fun _ _ => Returned {| chunks := map gpt_chunk [Some "```py"; None; Some "thon"];
                              failure := None |})
      (the_prompts "What is a closure?") [] = (Returned tt, new) /\
    updates new = ["py"; "py"; "python"] /\
    printed new = [] /\
    requests new = 4.
Proof.
  assert (Hplain : Forall (plain quiet)
            (loop_buffers ""
               (gpt_texts (map gpt_chunk [Some "```py"; None; Some "thon"]))))
    by (apply plain_quiet; reflexivity).
  destruct (proj1 (wrappers_complete_stream quiet (the_prompts "What is a closure?") [])
              (fun _ _ => Returned {| chunks := map gpt_chunk [Some "```py"; None; Some "thon"];
                                      failure := None |})
              {| chunks := map gpt_chunk [Some "```py"; None; Some "thon"]; failure := None |}
              eq_refl eq_refl eq_refl Hplain)
    as (new & Hrun & _ & Hu & Hp & Hr & _).
  exists new; repeat split; assumption.
Defined.

(** ** A chunk without choices *)

(** X2.  When some chunk of the stream of [gpt_answer] has an empty
    [choices] list, and [Markdown] takes the buffers of the rounds
    before it as text, the loop stops at the first such chunk with an
    [IndexError], whatever follows it in the stream: the chunks before
    it have been displayed, no later chunk is requested, the diagnostic
    of the [IndexError] is the only line printed, and [gpt_answer]
    returns normally. *)
Theorem gpt_answer_chunk_without_choices (env : environment)
    (openai : backend openai_types.ChatCompletionChunk)
    (prompts : list message) (log : list event)
    (st : stream openai_types.ChatCompletionChunk) :
  openai MODEL_GPT prompts = Returned st ->
  gpt_well_formed (chunks st) = false ->
  Forall (plain env) (loop_buffers "" (gpt_texts (chunks st))) ->
  exists new,
    gpt_answer env openai prompts log = (Returned tt, (log ++ new)%list) /\
    updates new = loop_buffers "" (gpt_texts (chunks st)) /\
    requests new = S (List.length (gpt_texts (chunks st))) /\
    requests new <= List.length (chunks st) /\
    printed new =
      ["An error occurred while streaming the answer for your question: list index out of range"] /\
    shown (new_id env log) (log ++ new)%list =
      Some (aggregate "" (gpt_texts (chunks st))).
Proof.
  intros Hopen Hwf Hplain.
  exists (session_events (new_id env log) (gpt_texts (chunks st))
            ++ [EvPrint (diagnostic {| exn_class := IndexError;
                                       exn_str := "list index out of range" |})])%list.
  rewrite gpt_answer_of_try, (gpt_answer_general _ _ _ _ _ Hopen Hplain), Hwf.
  cbv iota; simpl isinstance_Exception; cbv iota.
  destruct (session_events_print_read (new_id env log) (gpt_texts (chunks st)) log
              (diagnostic {| exn_class := IndexError;
                             exn_str := "list index out of range" |}))
    as (Hd & Hu & Hp & Hr & Hs).
  rewrite <- app_assoc.
  split; [reflexivity|].
  split; [exact Hu|]; split; [exact Hr|]; split; [|split; [exact Hp | exact Hs]].
  rewrite Hr; apply gpt_texts_shorter, Hwf.
Qed.

Lemma gpt_answer_chunk_without_choices_witness :
  exists new,
    gpt_answer quiet
      (fun _ _ => Returned {| chunks := [gpt_chunk (Some "Hel");
                                         {| openai_types.choices := [] |};
                                         gpt_chunk (Some "lo")];
                              failure := None |})
      (the_prompts "What is a closure?") [] = (Returned tt, new) /\
    updates new = ["Hel"] /\
    requests new = 2.
Proof.
  assert (Hplain : Forall (plain quiet)
            (loop_buffers ""
               (gpt_texts [gpt_chunk (Some "Hel");
                           {| openai_types.choices := [] |};
                           gpt_chunk (Some "lo")])))
    by (apply plain_quiet; reflexivity).
  destruct (gpt_answer_chunk_without_choices quiet
              (fun _ _ => Returned {| chunks := [gpt_chunk (Some "Hel");
                                                 {| openai_types.choices := [] |};
                                                 gpt_chunk (Some "lo")];
                                      failure := None |})
              (the_prompts "What is a closure?") []
              {| chunks := [gpt_chunk (Some "Hel");
                            {| openai_types.choices := [] |};
                            gpt_chunk (Some "lo")];
                 failure := None |}
              eq_refl eq_refl Hplain)
    as (new & Hrun & Hu & Hr & _).
  exists new; repeat split; assumption.
Defined.

(** X3.  The loop of [gpt_answer] reads only the first choice of a
    chunk: cutting every chunk down to its first choice changes neither
    what the loop returns or raises nor what it logs. *)
Theorem gpt_loop_first_choice_only (env : environment) (id : nat)
    (chunks : list openai_types.ChatCompletionChunk) (failure : option exn)
    (response : string) (log : list event) :
  gpt_loop env id chunks failure response log =
  gpt_loop env id
    (map (fun chunk =>
            {| openai_types.choices := firstn 1 (openai_types.choices chunk) |})
         chunks)
    failure response log.
Proof.
  revert response log; induction chunks as [|chunk cs IH]; intros response log.
  - reflexivity.
  - simpl map; simpl gpt_loop.
    cbv [bind emit getitem0 ret update_display].
    destruct chunk as [[|choice others]]; [reflexivity|].
    simpl.
    match goal with
    | |- context [Markdown env ?d ?l] =>
        destruct (Markdown env d l) as [[md|e] log']; [apply IH | reflexivity]
    end.
Qed.

(** ** A stream that fails part-way *)

(** X4.  When the stream raises, after its chunks, an exception that is
    not an instance of [Exception] (a [KeyboardInterrupt], say), and
    [Markdown] takes every buffer of the loop as text, [gpt_answer]
    (every chunk having a choice) and [llama_answer] let it through to
    the caller and print nothing; the chunks delivered before it have
    been displayed and the display keeps the last buffer. *)
Theorem wrappers_reraise_mid_stream (env : environment) (prompts : list message)
    (log : list event) (e : exn) :
  isinstance_Exception (exn_class e) = false ->
  (forall openai st,
     openai MODEL_GPT prompts = Returned st ->
     failure st = Some e ->
     gpt_well_formed (chunks st) = true ->
     Forall (plain env) (loop_buffers "" (gpt_texts (chunks st))) ->
     exists new,
       gpt_answer env openai prompts log = (Raised e, (log ++ new)%list) /\
       updates new = loop_buffers "" (gpt_texts (chunks st)) /\
       printed new = [] /\
       shown (new_id env log) (log ++ new)%list =
         Some (aggregate "" (gpt_texts (chunks st)))) /\
  (forall ollama_chat st,
     ollama_chat MODEL_LLAMA prompts = Returned st ->
     failure st = Some e ->
     Forall (plain env) (loop_buffers "" (llama_texts (chunks st))) ->
     exists new,
       llama_answer env ollama_chat prompts log = (Raised e, (log ++ new)%list) /\
       updates new = loop_buffers "" (llama_texts (chunks st)) /\
       printed new = [] /\
       shown (new_id env log) (log ++ new)%list =
         Some (aggregate "" (llama_texts (chunks st)))).
Proof.
  intros He; split.
  - intros openai st Hopen Hfail Hwf Hplain.
    exists (session_events (new_id env log) (gpt_texts (chunks st))).
    rewrite gpt_answer_of_try, (gpt_answer_general _ _ _ _ _ Hopen Hplain), Hwf, Hfail.
    unfold loop_result; cbv iota; rewrite He.
    destruct (session_events_read (new_id env log) (gpt_texts (chunks st)) log)
      as (_ & Hu & Hp & _ & Hs).
    split; [reflexivity|]; split; [exact Hu|]; split; [exact Hp | exact Hs].
  - intros ollama_chat st Hopen Hfail Hplain.
    exists (session_events (new_id env log) (llama_texts (chunks st))).
    rewrite llama_answer_of_try, (llama_answer_general _ _ _ _ _ Hopen Hplain), Hfail.
    unfold loop_result; cbv iota; rewrite He.
    destruct (session_events_read (new_id env log) (llama_texts (chunks st)) log)
      as (_ & Hu & Hp & _ & Hs).
    split; [reflexivity|]; split; [exact Hu|]; split; [exact Hp | exact Hs].
Qed.

Lemma wrappers_reraise_mid_stream_witness :
  exists new,
    llama_answer quiet
      (fun _ _ => Returned {| chunks := map llama_chunk [Some "Hel"; Some "lo"];
                              failure := Some {| exn_class := KeyboardInterrupt;
                                                 exn_str := "" |} |})
      (the_prompts "What is a closure?") [] =
      (Raised {| exn_class := KeyboardInterrupt; exn_str := "" |}, new) /\
    updates new = ["Hel"; "Hello"] /\
    printed new = [].
Proof.
  assert (Hplain : Forall (plain quiet)
            (loop_buffers "" (llama_texts (map llama_chunk [Some "Hel"; Some "lo"]))))
    by (apply plain_quiet; reflexivity).
  destruct (proj2 (wrappers_reraise_mid_stream quiet (the_prompts "What is a closure?") []
                     {| exn_class := KeyboardInterrupt; exn_str := "" |} eq_refl)
              (fun _ _ => Returned {| chunks := map llama_chunk [Some "Hel"; Some "lo"];
                                      failure := Some {| exn_class := KeyboardInterrupt;
                                                         exn_str := "" |} |})
              {| chunks := map llama_chunk [Some "Hel"; Some "lo"];
                 failure := Some {| exn_class := KeyboardInterrupt; exn_str := "" |} |}
              eq_refl eq_refl Hplain)
    as (new & Hrun & Hu & Hp & _).
  exists new; split; [exact Hrun|]; split; [exact Hu | exact Hp].
Defined.

(** X5.  When the stream of [llama_answer] raises an instance of
    [Exception] after [k] chunks, and [Markdown] takes every buffer of
    the loop as text, [llama_answer] returns normally: it has sent [k]
    updates, the successive buffers, and asked the stream [k+1] times;
    the display shows the buffer after [k] rounds and the diagnostic of
    the exception is the only line printed. *)
Theorem llama_answer_partial_stream (env : environment)
    (ollama_chat : backend ollama_types.ChatResponse)
    (prompts : list message) (log : list event)
    (st : stream ollama_types.ChatResponse) (e : exn) :
  ollama_chat MODEL_LLAMA prompts = Returned st ->
  failure st = Some e ->
  isinstance_Exception (exn_class e) = true ->
  Forall (plain env) (loop_buffers "" (llama_texts (chunks st))) ->
  exists new,
    llama_answer env ollama_chat prompts log = (Returned tt, (log ++ new)%list) /\
    updates new = loop_buffers "" (llama_texts (chunks st)) /\
    requests new = S (List.length (chunks st)) /\
    printed new = [diagnostic e] /\
    shown (new_id env log) (log ++ new)%list =
      Some (aggregate "" (llama_texts (chunks st))).
Proof.
  intros Hopen Hfail He Hplain.
  exists (session_events (new_id env log) (llama_texts (chunks st))
            ++ [EvPrint (diagnostic e)])%list.
  rewrite llama_answer_of_try, (llama_answer_general _ _ _ _ _ Hopen Hplain), Hfail.
  unfold loop_result; cbv iota; rewrite He.
  destruct (session_events_print_read (new_id env log)
              (llama_texts (chunks st)) log (diagnostic e))
    as (_ & Hu & Hp & Hr & Hs).
  rewrite <- app_assoc.
  split; [reflexivity|]; split; [exact Hu|]; split; [|split; [exact Hp | exact Hs]].
  rewrite Hr; unfold llama_texts; now rewrite length_map.
Qed.

Lemma llama_answer_partial_stream_witness :
  exists new,
    llama_answer quiet
      (fun _ _ => Returned {| chunks := map llama_chunk [Some "Hel"; Some "lo"];
                              failure := Some {| exn_class := OtherException "ResponseError";
                                                 exn_str := "unexpected EOF" |} |})
      (the_prompts "What is a closure?") [] = (Returned tt, new) /\
    updates new = ["Hel"; "Hello"] /\
    requests new = 3 /\
    printed new =
      ["An error occurred while streaming the answer for your question: unexpected EOF"].
Proof.
  assert (Hplain : Forall (plain quiet)
            (loop_buffers "" (llama_texts (map llama_chunk [Some "Hel"; Some "lo"]))))
    by (apply plain_quiet; reflexivity).
  destruct (llama_answer_partial_stream quiet
              (fun _ _ => Returned {| chunks := map llama_chunk [Some "Hel"; Some "lo"];
                                      failure := Some {| exn_class := OtherException "ResponseError";
                                                         exn_str := "unexpected EOF" |} |})
              (the_prompts "What is a closure?") []
              {| chunks := map llama_chunk [Some "Hel"; Some "lo"];
                 failure := Some {| exn_class := OtherException "ResponseError";
                                    exn_str := "unexpected EOF" |} |}
              {| exn_class := OtherException "ResponseError"; exn_str := "unexpected EOF" |}
              eq_refl eq_refl eq_refl Hplain)
    as (new & Hrun & Hu & Hr & Hp & _).
  exists new; split; [exact Hrun|]; split; [exact Hu|]; split; [exact Hr | exact Hp].
Defined.

(** ** What the wrappers never do *)

(** X6.  Whatever the backend does, either wrapper only appends to the
    log, creates at most one display and prints at most one line; it
    never lets an instance of [Exception] through, and when it raises
    it has printed nothing. *)
Theorem wrappers_never (env : environment) (prompts : list message)
    (log : list event) :
  (forall openai,
     exists r new,
       gpt_answer env openai prompts log = (r, (log ++ new)%list) /\
       List.length (displays new) <= 1 /\
       List.length (printed new) <= 1 /\
       match r with
       | Returned _ => True
       | Raised e => isinstance_Exception (exn_class e) = false /\ printed new = []
       end) /\
  (forall ollama_chat,
     exists r new,
       llama_answer env ollama_chat prompts log = (r, (log ++ new)%list) /\
       List.length (displays new) <= 1 /\
       List.length (printed new) <= 1 /\
       match r with
       | Returned _ => True
       | Raised e => isinstance_Exception (exn_class e) = false /\ printed new = []
       end).
Proof.
  assert (Hcatch : forall (res : result string) (new : list event),
    List.length (displays new) <= 1 -> printed new = [] ->
    exists r' new',
      match res with
      | Returned _ => (Returned tt, (log ++ new)%list)
      | Raised e =>
          if isinstance_Exception (exn_class e)
          then (Returned tt, ((log ++ new) ++ [EvPrint (diagnostic e)])%list)
          else (Raised e, (log ++ new)%list)
      end = (r', (log ++ new')%list) /\
      List.length (displays new') <= 1 /\
      List.length (printed new') <= 1 /\
      match r' with
      | Returned _ => True
      | Raised e => isinstance_Exception (exn_class e) = false /\ printed new' = []
      end).
  { intros res new Hd Hp.
    destruct res as [b|e].
    - exists (Returned tt), new; rewrite Hp; simpl; auto.
    - destruct (isinstance_Exception (exn_class e)) eqn:He.
      + exists (Returned tt), (new ++ [EvPrint (diagnostic e)])%list.
        rewrite app_assoc, displays_app, printed_app, Hp, app_nil_r; simpl; auto.
      + exists (Raised e), new; rewrite Hp; simpl; auto. }
  split.
  - intros openai; rewrite gpt_answer_of_try.
    destruct (openai MODEL_GPT prompts) as [st|e] eqn:Hopen.
    + rewrite (gpt_try_opened _ _ _ _ _ Hopen).
      destruct (gpt_loop_outcome env (new_id env log) (chunks st) (failure st) ""
                  (log ++ [EvDisplay (new_id env log) ""])%list)
        as (new & res & Hrun & Hp & Hd & _).
      rewrite Hrun, <- app_assoc.
      apply Hcatch; [|exact Hp].
      rewrite displays_app, Hd; simpl; lia.
    + rewrite (gpt_try_not_opened _ _ _ _ _ Hopen).
      destruct (Hcatch (Raised e) []) as (r' & new' & Hrun & Hrest);
        [simpl; lia | reflexivity |].
      rewrite app_nil_r in Hrun.
      exists r', new'; split; [exact Hrun | exact Hrest].
  - intros ollama_chat; rewrite llama_answer_of_try.
    destruct (ollama_chat MODEL_LLAMA prompts) as [st|e] eqn:Hopen.
    + rewrite (llama_try_opened _ _ _ _ _ Hopen).
      destruct (llama_loop_outcome env (new_id env log) (chunks st) (failure st) ""
                  (log ++ [EvDisplay (new_id env log) ""])%list)
        as (new & res & Hrun & Hp & Hd & _).
      rewrite Hrun, <- app_assoc.
      apply Hcatch; [|exact Hp].
      rewrite displays_app, Hd; simpl; lia.
    + rewrite (llama_try_not_opened _ _ _ _ _ Hopen).
      destruct (Hcatch (Raised e) []) as (r' & new' & Hrun & Hrest);
        [simpl; lia | reflexivity |].
      rewrite app_nil_r in Hrun.
      exists r', new'; split; [exact Hrun | exact Hrest].
Qed.

(** ** The buffer and the text delivered *)

Lemma sanitize_length_le (s : string) :
  String.length (sanitize s) <= String.length s.
Proof.
  unfold sanitize.
  pose proof (remove_length_le "m" "arkdown" (replace s "```" "")).
  pose proof (remove_length_le "`" "``" s).
  lia.
Qed.

Lemma aggregate_length_le (response : string) (texts : list (option string)) :
  String.length (aggregate response texts) <=
  String.length response + String.length (join (map or_empty texts)).
Proof.
  revert response; induction texts as [|text texts IH]; intros response.
  - simpl; lia.
  - change (aggregate response (text :: texts))
      with (aggregate (sanitize (response ++ or_empty text)) texts).
    specialize (IH (sanitize (response ++ or_empty text))).
    pose proof (sanitize_length_le (response ++ or_empty text)) as Hs.
    simpl map; simpl join; rewrite length_append in *; lia.
Qed.

Lemma clean_app (s t : string) : clean (s ++ t) -> clean s /\ clean t.
Proof.
  intros [Hf Hm].
  apply contains_app_false in Hf as [Hf1 Hf2].
  apply contains_app_false in Hm as [Hm1 Hm2].
  repeat split; assumption.
Qed.

Lemma aggregate_clean (response : string) (texts : list (option string)) :
  clean (response ++ join (map or_empty texts)) ->
  aggregate response texts = response ++ join (map or_empty texts).
Proof.
  revert response; induction texts as [|text texts IH]; intros response H.
  - simpl; now rewrite append_nil_r.
  - change (aggregate response (text :: texts))
      with (aggregate (sanitize (response ++ or_empty text)) texts).
    simpl map in *; simpl join in *.
    rewrite <- append_assoc in H.
    destruct (clean_app _ _ H) as [Hrt _].
    rewrite (sanitize_clean_fixed _ Hrt), (IH _ H).
    apply append_assoc.
Qed.

Lemma join_firstn_skipn (n : nat) (parts : list string) :
  join (firstn n parts) ++ join (skipn n parts) = join parts.
Proof. now rewrite <- join_app, firstn_skipn. Qed.

(** X7.  Text without the patterns passes through untouched: when the
    concatenation of the delivered texts contains no ["```"] and no
    ["markdown"], the buffer after each chunk is the concatenation of
    the texts delivered so far; and when [Markdown] takes each of these
    as text (none starts with ["http"], none names an existing path),
    the final buffer of either loop is the whole concatenation. *)
Theorem lossless_without_patterns (env : environment) (id : nat)
    (texts : list (option string)) (log : list event) :
  clean (join (map or_empty texts)) ->
  loop_buffers "" texts =
    map (fun i => delivered (S i) texts) (seq 0 (List.length texts)) /\
  (Forall (plain env) (map (fun i => delivered (S i) texts) (seq 0 (List.length texts))) ->
   fst (gpt_loop env id (map gpt_chunk texts) None "" log) =
     Returned (join (map or_empty texts)) /\
   fst (llama_loop env id (map llama_chunk texts) None "" log) =
     Returned (join (map or_empty texts))).
Proof.
  intros H.
  assert (Hb : loop_buffers "" texts =
               map (fun i => delivered (S i) texts) (seq 0 (List.length texts))).
  { rewrite loop_buffers_nth; apply map_ext; intros i.
    unfold delivered; apply (aggregate_clean "").
    simpl append.
    rewrite <- (join_firstn_skipn (S i) (map or_empty texts)), firstn_map in H.
    exact (proj1 (clean_app _ _ H)). }
  split; [exact Hb|].
  rewrite <- Hb; intros Hplain.
  rewrite gpt_loop_run, llama_loop_run by exact Hplain; simpl fst.
  rewrite (aggregate_clean "" texts H).
  split; reflexivity.
Qed.

Lemma lossless_without_patterns_witness :
  fst (gpt_loop quiet 0 (map gpt_chunk [Some "A `closure` "; None; Some "captures names."])
         None "" []) =
  Returned "A `closure` captures names.".
Proof.
  apply (lossless_without_patterns quiet 0
           [Some "A `closure` "; None; Some "captures names."] []).
  - split; reflexivity.
  - apply plain_quiet; reflexivity.
Defined.

(** X8.  A chunk whose text is missing or empty still costs a round: the
    buffer is sanitized once more and, when [Markdown] takes the result
    as text, the loop sends it as an update; the buffer comes out
    unchanged exactly when it contains no ["```"] and no ["markdown"]. *)
Theorem empty_fragment_round (env : environment) (id : nat) (response : string)
    (text : option string) (log : list event) :
  or_empty text = "" ->
  plain env (sanitize response) ->
  gpt_loop env id [gpt_chunk text] None response log =
    (Returned (sanitize response),
     (log ++ [EvNext; EvUpdateDisplay id (sanitize response); EvNext])%list) /\
  llama_loop env id [llama_chunk text] None response log =
    (Returned (sanitize response),
     (log ++ [EvNext; EvUpdateDisplay id (sanitize response); EvNext])%list) /\
  (sanitize response = response <-> clean response).
Proof.
  intros H Hplain.
  assert (Hp : Forall (plain env) (loop_buffers response [text])).
  { simpl; rewrite H, append_nil_r; constructor; [exact Hplain | constructor]. }
  rewrite (gpt_loop_run env id [text]), (llama_loop_run env id [text]) by exact Hp.
  simpl; rewrite H, append_nil_r.
  split; [reflexivity|]; split; [reflexivity|].
  split; [apply sanitize_fixed_clean | apply sanitize_clean_fixed].
Qed.

Lemma empty_fragment_round_witness :
  gpt_loop quiet 0 [gpt_chunk None] None "```" [] =
  (Returned "", [EvNext; EvUpdateDisplay 0 ""; EvNext]).
Proof.
  apply (proj1 (empty_fragment_round quiet 0 "```" None [] eq_refl
                  (conj eq_refl (fun _ => eq_refl)))).
Defined.

(** ** Fences at the ends of the text *)

Lemma fence_close (y : string) :
  contains y "```" = false -> replace (y ++ "```") "```" "" = y.
Proof.
  induction y as [|c y IH]; intros H; [reflexivity|].
  rewrite contains_cons in H; apply orb_false_iff in H as [Hh Ht].
  specialize (IH Ht).
  destruct (Ascii.eqb "`" c) eqn:Ec.
  2:{ simpl append; rewrite fence_copy_head by exact Ec; now rewrite IH. }
  apply Ascii.eqb_eq in Ec; subst c.
  destruct y as [|d y]; [reflexivity|].
  destruct (Ascii.eqb "`" d) eqn:Ed.
  2:{ simpl append in *.
      rewrite replace_nomatch by (simpl; now rewrite ?Ascii.eqb_refl, Ed).
      now rewrite IH. }
  apply Ascii.eqb_eq in Ed; subst d.
  destruct y as [|e y]; [reflexivity|].
  assert (Ee : Ascii.eqb "`" e = false).
  { simpl in Hh; rewrite ?Ascii.eqb_refl in Hh; simpl in Hh.
    destruct (Ascii.eqb "`" e); [discriminate Hh | reflexivity]. }
  simpl append in *.
  rewrite replace_nomatch by (simpl; now rewrite ?Ascii.eqb_refl, Ee).
  now rewrite IH.
Qed.

(** X9.  An opening fence, an opening fence with the language tag
    [markdown], and a closing fence are dropped from any text: the
    clean-up of the text with one of them at its start or its end is the
    clean-up of the text alone. *)
Theorem sanitize_fence_ends (s : string) :
  sanitize ("```" ++ s) = sanitize s /\
  sanitize ("```markdown" ++ s) = sanitize s /\
  sanitize (s ++ "```") = sanitize s.
Proof.
  unfold sanitize; split; [|split].
  - now rewrite replace_app_old.
  - change ("```markdown" ++ s) with ("```" ++ ("markdown" ++ s)).
    rewrite (replace_app_old "`" "``" "" ("markdown" ++ s)).
    change ("" ++ replace ("markdown" ++ s) "```" "")
      with (replace ("markdown" ++ s) "```" "").
    now rewrite fence_pass_markdown, replace_app_old.
  - rewrite <- fence_absorb.
    now rewrite (fence_close _ (fence_removed s)).
Qed.

(** ** The two test cells *)

(** X10.  Run one after the other on streams that end normally, with
    [Markdown] taking every buffer as text, the two test cells return
    normally and print nothing; each creates a display with the
    identifier the notebook hands out at that moment.  The display of
    [llama_answer] ends with the final buffer of [llama_answer]; when
    the two identifiers differ, the updates of [llama_answer] leave the
    display of [gpt_answer] showing the final buffer of [gpt_answer]. *)
Theorem test_cells_displays (env : environment)
    (openai : backend openai_types.ChatCompletionChunk)
    (ollama_chat : backend ollama_types.ChatResponse)
    (prompts : list message) (log : list event)
    (st1 : stream openai_types.ChatCompletionChunk)
    (st2 : stream ollama_types.ChatResponse) :
  openai MODEL_GPT prompts = Returned st1 ->
  failure st1 = None ->
  gpt_well_formed (chunks st1) = true ->
  Forall (plain env) (loop_buffers "" (gpt_texts (chunks st1))) ->
  ollama_chat MODEL_LLAMA prompts = Returned st2 ->
  failure st2 = None ->
  Forall (plain env) (loop_buffers "" (llama_texts (chunks st2))) ->
  let id1 := new_id env log in
  let s1 := session_events id1 (gpt_texts (chunks st1)) in
  let id2 := new_id env (log ++ s1)%list in
  let s2 := session_events id2 (llama_texts (chunks st2)) in
  test_cells env openai ollama_chat prompts log =
    (Returned tt, (log ++ s1 ++ s2)%list) /\
  displays (s1 ++ s2) = [""; ""] /\
  printed (s1 ++ s2) = [] /\
  shown id2 (log ++ s1 ++ s2)%list =
    Some (aggregate "" (llama_texts (chunks st2))) /\
  (id1 <> id2 ->
   shown id1 (log ++ s1 ++ s2)%list =
     Some (aggregate "" (gpt_texts (chunks st1)))).
Proof.
  intros Hopen1 Hend1 Hwf Hplain1 Hopen2 Hend2 Hplain2 id1 s1 id2 s2.
  destruct (session_events_read id1 (gpt_texts (chunks st1)) log)
    as (Hd1 & _ & Hp1 & _ & Hs1).
  destruct (session_events_read id2 (llama_texts (chunks st2)) (log ++ s1)%list)
    as (Hd2 & _ & Hp2 & _ & Hs2).
  split; [|split; [|split; [|split]]].
  - unfold test_cells, bind.
    rewrite gpt_answer_of_try, (gpt_answer_general _ _ _ _ _ Hopen1 Hplain1), Hwf, Hend1.
    simpl loop_result; cbv iota.
    rewrite llama_answer_of_try, (llama_answer_general _ _ _ _ _ Hopen2 Hplain2), Hend2.
    simpl loop_result; cbv iota.
    fold id1; fold s1; fold id2; fold s2.
    now rewrite app_assoc.
  - unfold s1, s2; now rewrite displays_app, Hd1, Hd2.
  - unfold s1, s2; now rewrite printed_app, Hp1, Hp2.
  - rewrite app_assoc; exact Hs2.
  - intros Hne.
    rewrite app_assoc, shown_app.
    unfold s2; rewrite shown_other_session by exact Hne.
    exact Hs1.
Qed.

Lemma test_cells_displays_witness :
  test_cells quiet
    (fun _ _ => Returned {| chunks := map gpt_chunk [Some "from "; Some "gpt"];
                            failure := None |})
    (fun _ _ => Returned {| chunks := map llama_chunk [Some "from "; Some "llama"];
                            failure := None |})
    (the_prompts "What is a closure?") [] =
    (Returned tt,
     [EvDisplay 0 ""; EvNext; EvUpdateDisplay 0 "from "; EvNext;
      EvUpdateDisplay 0 "from gpt"; EvNext;
      EvDisplay 1 ""; EvNext; EvUpdateDisplay 1 "from "; EvNext;
      EvUpdateDisplay 1 "from llama"; EvNext]).
Proof.
  assert (Hplain1 : Forall (plain quiet)
            (loop_buffers "" (gpt_texts (map gpt_chunk [Some "from "; Some "gpt"]))))
    by (apply plain_quiet; reflexivity).
  assert (Hplain2 : Forall (plain quiet)
            (loop_buffers "" (llama_texts (map llama_chunk [Some "from "; Some "llama"]))))
    by (apply plain_quiet; reflexivity).
  exact (proj1 (test_cells_displays quiet
              (fun _ _ => Returned {| chunks := map gpt_chunk [Some "from "; Some "gpt"];
                                      failure := None |})
              (fun _ _ => Returned {| chunks := map llama_chunk [Some "from "; Some "llama"];
                                      failure := None |})
              (the_prompts "What is a closure?") []
              {| chunks := map gpt_chunk [Some "from "; Some "gpt"]; failure := None |}
              {| chunks := map llama_chunk [Some "from "; Some "llama"]; failure := None |}
              eq_refl eq_refl eq_refl Hplain1 eq_refl eq_refl Hplain2)).
Defined.

(** ** The question inside the prompt *)

(** X11.  The question can be read back from the conversation: the text
    of the user message is 70 characters longer than the question, and
    without its first 70 characters it is the question. *)
Theorem user_prompt_question_recovered (question : string) :
  String.length (user_prompt question) = 70 + String.length question /\
  drop 70 (user_prompt question) = question /\
  map (fun m => drop 70 (content m)) (skipn 1 (the_prompts question)) = [question].
Proof.
  assert (H : drop 70 (user_prompt question) = question).
  { exact (drop_app user_prompt_prefix question). }
  split; [|split].
  - unfold user_prompt; now rewrite length_append.
  - exact H.
  - change ([drop 70 (user_prompt question)] = [question]); now rewrite H.
Qed.

(** ** The clean-up only deletes *)

Lemma subsequence_refl (s : string) : subsequence s s.
Proof. induction s; constructor; assumption. Qed.

Lemma subsequence_trans (u t s : string) :
  subsequence u t -> subsequence t s -> subsequence u s.
Proof.
  intros Hut Hts; revert u Hut.
  induction Hts as [|c t s Hts IH|c t s Hts IH]; intros u Hut.
  - exact Hut.
  - inversion Hut as [|c' u' t' Hu|c' u' t' Hu]; subst.
    + constructor; apply IH, Hu.
    + apply subsequence_drop, IH, Hu.
  - apply subsequence_drop, IH, Hut.
Qed.

Lemma subsequence_skip (p t s : string) :
  subsequence t s -> subsequence t (p ++ s).
Proof.
  intros H; induction p as [|c p IH]; [exact H|].
  simpl; apply subsequence_drop, IH.
Qed.

Lemma subsequence_app (t s u : string) :
  subsequence t s -> subsequence (t ++ u) (s ++ u).
Proof.
  induction 1; simpl; [apply subsequence_refl | |];
    constructor; assumption.
Qed.

Lemma remove_subsequence (a : ascii) (o s : string) :
  subsequence (replace s (String a o) "") s.
Proof.
  induction s as [|t IH|c s E IH] using (replace_ind a o).
  - constructor.
  - rewrite replace_app_old.
    apply (subsequence_skip (String a o)), IH.
  - rewrite replace_nomatch by exact E.
    constructor; exact IH.
Qed.

Lemma sanitize_subsequence (s : string) : subsequence (sanitize s) s.
Proof.
  unfold sanitize.
  eapply subsequence_trans; apply remove_subsequence.
Qed.

Lemma aggregate_subsequence (response : string) (texts : list (option string)) :
  subsequence (aggregate response texts) (response ++ join (map or_empty texts)).
Proof.
  revert response; induction texts as [|text texts IH]; intros response.
  - simpl; rewrite append_nil_r; apply subsequence_refl.
  - change (aggregate response (text :: texts))
      with (aggregate (sanitize (response ++ or_empty text)) texts).
    eapply subsequence_trans; [apply IH|].
    simpl map; simpl join; rewrite <- append_assoc.
    apply subsequence_app, sanitize_subsequence.
Qed.

(** X12.  The clean-up and the loops only delete: [sanitize s] is [s]
    with some characters deleted, and every buffer the loops hand to
    [Markdown] is the starting buffer followed by the texts delivered so
    far, with some characters deleted.  When [Markdown] takes every
    buffer as text, the updates of either loop are these buffers, and
    its final buffer is the starting buffer followed by the delivered
    texts with some characters deleted, hence no longer than them.
    Nothing is added, changed or moved. *)
Theorem buffers_only_delete (env : environment) (id : nat) (response : string)
    (texts : list (option string)) (log : list event) :
  (forall s, subsequence (sanitize s) s) /\
  Forall2 subsequence (loop_buffers response texts)
    (map (fun i => response ++ delivered (S i) texts) (seq 0 (List.length texts))) /\
  (Forall (plain env) (loop_buffers response texts) ->
   exists final new,
     gpt_loop env id (map gpt_chunk texts) None response log =
       (Returned final, (log ++ new)%list) /\
     llama_loop env id (map llama_chunk texts) None response log =
       (Returned final, (log ++ new)%list) /\
     updates new = loop_buffers response texts /\
     subsequence final (response ++ join (map or_empty texts)) /\
     String.length final <=
       String.length response + String.length (join (map or_empty texts))).
Proof.
  split; [exact sanitize_subsequence|]; split.
  - rewrite loop_buffers_nth.
    induction (seq 0 (List.length texts)) as [|i l IH]; constructor; [|exact IH].
    apply aggregate_subsequence.
  - intros Hplain.
    exists (aggregate response texts), (loop_events id response texts).
    rewrite gpt_loop_run, llama_loop_run by exact Hplain.
    split; [reflexivity|]; split; [reflexivity|]; split; [|split].
    + apply updates_loop_events.
    + apply aggregate_subsequence.
    + apply aggregate_length_le.
Qed.

Lemma buffers_only_delete_witness :
  exists final new,
    gpt_loop quiet 0 (map gpt_chunk [Some "```py"; Some "thon"]) None "" [] =
      (Returned final, new) /\
    updates new = ["py"; "python"] /\
    subsequence final "```python".
Proof.
  assert (Hplain : Forall (plain quiet) (loop_buffers "" [Some "```py"; Some "thon"]))
    by (apply plain_quiet; reflexivity).
  destruct (proj2 (proj2 (buffers_only_delete quiet 0 ""
                            [Some "```py"; Some "thon"] [])) Hplain)
    as (final & new & Hrun & _ & Hu & Hsub & _).
  exists final, new; split; [exact Hrun|]; split; [exact Hu | exact Hsub].
Defined.

(** ** Cutting the same text differently *)

Lemma append_eq_split (p s a b : string) :
  p ++ s = a ++ b ->
  (exists a', a = p ++ a' /\ s = a' ++ b) \/
  (exists p', p = a ++ p' /\ b = p' ++ s).
Proof.
  revert a; induction p as [|c p IH]; intros a E.
  - left; exists a; split; [reflexivity | exact E].
  - destruct a as [|d a].
    + right; exists (String c p); split; [reflexivity | symmetry; exact E].
    + simpl in E; injection E as <- E.
      destruct (IH a E) as [(a' & -> & Hs) | (p' & -> & Hb)].
      * left; exists a'; split; [reflexivity | exact Hs].
      * right; exists p'; split; [reflexivity | exact Hb].
Qed.

Lemma contains_length (s p : string) :
  contains s p = true -> String.length p <= String.length s.
Proof.
  induction s as [|c s IH]; intros H.
  - rewrite contains_nil in H.
    rewrite (startswith_split _ _ H), length_append; lia.
  - rewrite contains_cons in H; apply orb_true_iff in H as [H | H].
    + rewrite (startswith_split _ _ H), length_append; lia.
    + apply IH in H; simpl; lia.
Qed.

(** A beginning of [markdown] is detached. *)
Lemma detached_markdown_prefix (a p' : string) :
  "markdown" = a ++ p' -> markdown_detached a.
Proof.
  intros E; destruct p' as [|c p'].
  - rewrite append_nil_r in E; subst a.
    apply (detached_first ""), detached_free; reflexivity.
  - apply detached_free.
    destruct (contains a "markdown") eqn:Hc; [|reflexivity].
    apply contains_length in Hc.
    apply (f_equal String.length) in E; rewrite length_append in E.
    simpl in *; lia.
Qed.

Lemma markdown_prefix_free (a p' : string) (c : ascii) :
  "markdown" = a ++ String c p' -> contains a "markdown" = false.
Proof.
  intros E.
  destruct (contains a "markdown") eqn:Hc; [|reflexivity].
  apply contains_length in Hc.
  apply (f_equal String.length) in E; rewrite length_append in E.
  simpl in *; lia.
Qed.

(** The beginning of a text whose occurrences are detached has its
    occurrences detached. *)
Lemma detached_prefix (x : string) :
  markdown_detached x -> forall a b, x = a ++ b -> markdown_detached a.
Proof.
  induction 1 as [s Hs | s Hd IH | p c s Hp Hc Hd IH]; intros a b E.
  - apply detached_free; subst s.
    exact (proj1 (contains_app_false _ _ _ Hs)).
  - destruct (append_eq_split _ _ _ _ E) as [(a' & -> & Hs) | (p' & Hm & _)].
    + apply detached_first, (IH a' b Hs).
    + exact (detached_markdown_prefix _ _ Hm).
  - rewrite <- append_cons_assoc in E.
    destruct (append_eq_split _ _ _ _ E) as [(a' & -> & Hs) | (p' & Hm & _)].
    + destruct (append_eq_split _ _ _ _ Hs) as [(a'' & -> & Hs') | (p' & Hm & _)].
      * rewrite append_cons_assoc.
        apply detached_after; [exact Hp | exact Hc | exact (IH a'' b Hs')].
      * destruct p' as [|c' p'].
        { rewrite append_nil_r in Hm; subst a'.
          rewrite append_cons_assoc.
          change "markdown" with ("markdown" ++ "").
          apply detached_after; [exact Hp | exact Hc |].
          apply detached_free; reflexivity. }
        apply detached_free, markdown_free_app; [exact Hp | exact Hc |].
        exact (markdown_prefix_free _ _ _ Hm).
    + apply detached_free; rewrite Hm in Hp.
      exact (proj1 (contains_app_false _ _ _ Hp)).
Qed.

(** A pattern without the character [x] cannot start before [x] and end
    on or after it. *)
Lemma startswith_before_char (p u : string) (x : ascii) (z : string) :
  contains p (String x "") = false ->
  startswith u p = false ->
  startswith (u ++ String x z) p = false.
Proof.
  revert u; induction p as [|a p IH]; intros u Hx Hu; [discriminate Hu|].
  rewrite contains_cons in Hx; apply orb_false_iff in Hx as [Ha Hx].
  simpl in Ha; rewrite andb_true_r, Ascii.eqb_sym in Ha.
  destruct u as [|c u]; simpl in *.
  - now rewrite Ha.
  - destruct (Ascii.eqb a c); [simpl in *; now apply IH | reflexivity].
Qed.

Lemma contains_before_char (p s : string) (x : ascii) (z : string) :
  contains p (String x "") = false ->
  contains s p = false ->
  contains (String x z) p = false ->
  contains (s ++ String x z) p = false.
Proof.
  intros Hx Hs Hz; induction s as [|c s IH]; [exact Hz|].
  rewrite contains_cons in Hs; apply orb_false_iff in Hs as [Hh Ht].
  simpl append; rewrite contains_cons, (IH Ht), orb_false_r.
  apply (startswith_before_char p (String c s)); assumption.
Qed.

(** Backticks after a text whose occurrences are detached leave them
    detached. *)
Lemma detached_ticks (y t : string) :
  markdown_detached y ->
  t = "" \/ t = "`" \/ t = "``" ->
  markdown_detached (y ++ t).
Proof.
  intros Hy Ht; induction Hy as [s Hs | s Hd IH | p c s Hp Hc Hd IH].
  - apply detached_free.
    destruct Ht as [-> | [-> | ->]].
    + now rewrite append_nil_r.
    + apply contains_before_char; [reflexivity | exact Hs | reflexivity].
    + apply contains_before_char; [reflexivity | exact Hs | reflexivity].
  - rewrite append_assoc; apply detached_first, IH.
  - assert (E : (p ++ String c ("markdown" ++ s)) ++ t =
                p ++ String c ("markdown" ++ (s ++ t)))
      by (rewrite append_assoc; reflexivity).
    rewrite E; apply detached_after; assumption.
Qed.

(** Where the scan copies the head of [String c s], either the text is
    one or two backticks, or the scan copies [c] whatever follows. *)
Lemma fence_boundary_ticks (c : ascii) (s : string) :
  startswith (String c s) "```" = false ->
  String c s = "`" \/ String c s = "``" \/
  (forall b, startswith (String c (s ++ b)) "```" = false).
Proof.
  intros E.
  destruct (Ascii.eqb "`" c) eqn:Ec.
  2:{ right; right; intros b; simpl; now rewrite Ec. }
  apply Ascii.eqb_eq in Ec; subst c.
  destruct s as [|d s]; [left; reflexivity|].
  destruct (Ascii.eqb "`" d) eqn:Ed.
  2:{ right; right; intros b; simpl; now rewrite ?Ascii.eqb_refl, Ed. }
  apply Ascii.eqb_eq in Ed; subst d.
  destruct s as [|e s]; [right; left; reflexivity|].
  right; right; intros b.
  simpl in E; rewrite ?Ascii.eqb_refl in E; simpl in E.
  simpl; rewrite ?Ascii.eqb_refl; simpl.
  destruct (Ascii.eqb "`" e); [discriminate E | reflexivity].
Qed.

(** The fence-free form of a text splits into a part that more text
    cannot touch and a run of at most two backticks. *)
Lemma fence_split (x : string) :
  exists y t,
    replace x "```" "" = y ++ t /\
    (t = "" \/ t = "`" \/ t = "``") /\
    forall rest, replace (x ++ rest) "```" "" = y ++ replace (t ++ rest) "```" "".
Proof.
  induction x as [|x IH|c s E IH] using (replace_ind "`" "``").
  - exists "", ""; split; [reflexivity|]; split; [now left | reflexivity].
  - destruct IH as (y & t & Hy & Ht & Hrest).
    exists y, t; rewrite replace_app_old; split; [exact Hy|]; split; [exact Ht|].
    intros rest; rewrite (append_assoc "```" x rest), replace_app_old.
    apply Hrest.
  - destruct (fence_boundary_ticks c s E) as [H1 | [H2 | Hcopy]].
    + rewrite H1; exists "", "`"; split; [reflexivity|]; split; [auto | reflexivity].
    + rewrite H2; exists "", "``"; split; [reflexivity|]; split; [auto | reflexivity].
    + destruct IH as (y & t & Hy & Ht & Hrest).
      exists (String c y), t.
      rewrite replace_nomatch by exact E.
      split; [simpl; now rewrite Hy|]; split; [exact Ht|].
      intros rest; simpl append.
      rewrite replace_nomatch by apply Hcopy.
      now rewrite Hrest.
Qed.

(** When every [markdown] of the whole fence-free text is detached, so
    is every [markdown] of the fence-free form of each beginning. *)
Lemma detached_beginning (x rest : string) :
  markdown_detached (replace (x ++ rest) "```" "") ->
  markdown_detached (replace x "```" "").
Proof.
  intros H.
  destruct (fence_split x) as (y & t & Hy & Ht & Hrest).
  rewrite Hrest in H; rewrite Hy.
  apply detached_ticks; [|exact Ht].
  exact (detached_prefix _ H y _ eq_refl).
Qed.

Lemma detached_whole_prefixes (texts : list (option string)) :
  markdown_detached (replace (join (map or_empty texts)) "```" "") ->
  detached_prefixes texts.
Proof.
  intros H i _; unfold delivered.
  rewrite <- (join_firstn_skipn i (map or_empty texts)), firstn_map in H.
  exact (detached_beginning _ _ H).
Qed.

(** X13.  How the backend cuts the text into fragments does not matter
    when every ["markdown"] of the whole text, stripped of its fences,
    is detached (directly after the start of the text, after another
    ["markdown"], or after a character other than a backtick and the
    letters m, a, r, k, d, o, w) and [Markdown] takes every buffer of
    the loop as text: the final buffer of either loop is then the
    clean-up of the whole text, so two such streams that deliver the
    same text in different pieces end with the same buffer. *)
Theorem fragmentation_independent (env : environment) (id : nat)
    (texts : list (option string)) (log : list event) :
  markdown_detached (replace (join (map or_empty texts)) "```" "") ->
  Forall (plain env) (loop_buffers "" texts) ->
  fst (gpt_loop env id (map gpt_chunk texts) None "" log) =
    Returned (sanitize (join (map or_empty texts))) /\
  fst (llama_loop env id (map llama_chunk texts) None "" log) =
    Returned (sanitize (join (map or_empty texts))) /\
  (forall texts' id' log',
     join (map or_empty texts') = join (map or_empty texts) ->
     Forall (plain env) (loop_buffers "" texts') ->
     fst (gpt_loop env id' (map gpt_chunk texts') None "" log') =
       fst (gpt_loop env id (map gpt_chunk texts) None "" log) /\
     fst (llama_loop env id' (map llama_chunk texts') None "" log') =
       fst (llama_loop env id (map llama_chunk texts) None "" log)).
Proof.
  intros H Hplain.
  assert (Hagg : forall ts, join (map or_empty ts) = join (map or_empty texts) ->
                 aggregate "" ts = sanitize (join (map or_empty texts))).
  { intros ts E; rewrite <- E in *.
    apply aggregate_sanitize_join, detached_whole_prefixes, H. }
  rewrite gpt_loop_run, llama_loop_run by exact Hplain; simpl fst.
  rewrite (Hagg texts eq_refl).
  split; [reflexivity|]; split; [reflexivity|].
  intros texts' id' log' E Hplain'.
  rewrite gpt_loop_run, llama_loop_run by exact Hplain'; simpl fst.
  rewrite (Hagg texts' E); split; reflexivity.
Qed.

Lemma fragmentation_independent_witness :
  fst (gpt_loop quiet 0
         (map gpt_chunk [Some "``"; Some "`mark"; Some "down # Ti"; Some "tle`"; Some "``"])
         None "" []) =
  Returned (sanitize "```markdown # Title```").
Proof.
  assert (H : markdown_detached
                (replace (join (map or_empty
                   [Some "``"; Some "`mark"; Some "down # Ti"; Some "tle`"; Some "``"]))
                   "```" "")).
  { apply (detached_first " # Title"), detached_free; reflexivity. }
  assert (Hplain : Forall (plain quiet)
            (loop_buffers ""
               [Some "``"; Some "`mark"; Some "down # Ti"; Some "tle`"; Some "``"]))
    by (apply plain_quiet; reflexivity).
  exact (proj1 (fragmentation_independent quiet 0
                  [Some "``"; Some "`mark"; Some "down # Ti"; Some "tle`"; Some "``"] []
                  H Hplain)).
Defined.
